(** * pykafka.utils.struct_helpers: a shallow embedding

    The module extends Python's [struct] mini-language with arrays
    ([[...]]), length-prefixed strings ([S], [Y]) and varints ([V]).

    The embedding follows the source function by function.  Python
    exceptions are values of [exn]; every function that can raise
    returns a [result].  Buffers are lists of bytes, offsets are
    integers (Python accepts negative ones), format strings are lists
    of characters with codes below 256.  The interpreter is CPython
    3.11: [chr] yields a [str], [struct] yields and takes [bytes], and
    the [struct] module is the one of that release. *)

From Stdlib Require Import ZArith List Bool Lia.
From Stdlib.Strings Require Import String Ascii Byte.
Import ListNotations.
Local Open Scope Z_scope.
Set Warnings "-register-all".

(** ** Python values, exceptions *)

Module Py.

Inductive exn : Type :=
| StructError           (* struct.error *)
| TypeError
| IndexError
| SystemError
| OverflowError
| UnicodeEncodeError
| OutOfFuel.            (* never raised: see [unpack_fuel_enough],
                           [unpack_varint_from_total], [pack_varint_into_total] *)

Inductive result (A : Type) : Type :=
| Ok (a : A)
| Err (e : exn).
Arguments Ok {A} a.
Arguments Err {A} e.

Definition bind {A B} (c : result A) (k : A -> result B) : result B :=
  match c with
  | Ok a => k a
  | Err e => Err e
  end.

(** The objects the codec produces and consumes.  A [float] is a
    binary64 number, carried by its 64 bits. *)
Inductive value : Type :=
| VNone
| VBool (b : bool)
| VInt (z : Z)
| VFloat (bits : Z)
| VBytes (s : list byte)
| VStr (s : list ascii)
| VTuple (l : list value)
| VList (l : list value).

(** [bool(v)] *)
Definition truthy (v : value) : bool :=
  match v with
  | VNone => false
  | VBool b => b
  | VInt z => negb (z =? 0)
  | VFloat bits => negb (Z.land bits (2 ^ 63 - 1) =? 0)
  | VBytes s => negb (Nat.eqb (List.length s) 0)
  | VStr s => negb (Nat.eqb (List.length s) 0)
  | VTuple l => negb (Nat.eqb (List.length l) 0)
  | VList l => negb (Nat.eqb (List.length l) 0)
  end.

Definition len {A} (l : list A) : Z := Z.of_nat (List.length l).

(** [l[i]] for [0 <= i]; a missing index raises [IndexError]. *)
Definition index {A} (l : list A) (i : nat) : result A :=
  match nth_error l i with
  | Some a => Ok a
  | None => Err IndexError
  end.

(** [l.pop(0)] returns the head and the list that remains. *)
Definition pop0 {A} (l : list A) : result (A * list A) :=
  match l with
  | a :: l' => Ok (a, l')
  | [] => Err IndexError
  end.

(** [[l.pop(0) for _ in range(n)]] *)
Fixpoint pop_many {A} (n : nat) (l : list A) : result (list A * list A) :=
  match n with
  | O => Ok ([], l)
  | S n' =>
      match pop0 l with
      | Ok (a, l') =>
          match pop_many n' l' with
          | Ok (popped, rest) => Ok (a :: popped, rest)
          | Err e => Err e
          end
      | Err e => Err e
      end
  end.

(** A slice bound of [l[start:stop]], as Python clamps it. *)
Definition clamp (n i : Z) : Z :=
  let i := if i <? 0 then i + n else i in
  Z.max 0 (Z.min n i).

(** [l[start:stop]] *)
Definition slice {A} (l : list A) (start stop : Z) : list A :=
  let a := clamp (len l) start in
  let b := clamp (len l) stop in
  firstn (Z.to_nat (b - a)) (skipn (Z.to_nat a) l).

(** [ord(s)] for a [bytes] object: it must hold exactly one byte. *)
Definition ord (s : list byte) : result Z :=
  match s with
  | [b] => Ok (Z.of_N (Byte.to_N b))
  | _ => Err TypeError
  end.

(** The byte of value [i mod 256]. *)
Definition byte_of (i : Z) : byte :=
  match Byte.of_N (Z.to_N (i mod 256)) with
  | Some b => b
  | None => x00
  end.

(** [chr(i)]: a [str] of one character; the callers pass
    [0 <= i < 256]. *)
Definition chr (i : Z) : value :=
  VStr [ascii_of_nat (Z.to_nat (i mod 256))].

(** A [str] literal. *)
Definition str (s : string) : list ascii := list_ascii_of_string s.

(** [c in s] for a one-character [c]. *)
Definition char_in (c : ascii) (s : list ascii) : bool :=
  existsb (Ascii.eqb c) s.

(** [s.count(c)] *)
Definition count (s : list ascii) (c : ascii) : nat :=
  List.length (filter (Ascii.eqb c) s).

(** [s.replace(c, '')] *)
Definition remove_char (c : ascii) (s : list ascii) : list ascii :=
  filter (fun d => negb (Ascii.eqb d c)) s.

Definition digit_char (d : Z) : ascii :=
  ascii_of_nat (48 + Z.to_nat d).

Fixpoint digits_acc (fuel : nat) (n : Z) (acc : list ascii) : list ascii :=
  match fuel with
  | O => digit_char n :: acc
  | S fuel' =>
      if n <? 10 then digit_char n :: acc
      else digits_acc fuel' (n / 10) (digit_char (n mod 10) :: acc)
  end.

(** ['%d' % n] *)
Definition decimal (n : Z) : list ascii :=
  if n <? 0
  then "-"%char :: digits_acc (Z.to_nat (Z.log2 (- n))) (- n) []
  else digits_acc (Z.to_nat (Z.log2 n)) n [].

End Py.

Export Py.

Notation "x <- c ;; k" := (bind c (fun x => k))
  (at level 61, c at next level, right associativity).
Notation "' p <- c ;; k" := (bind c (fun x => let 'p := x in k))
  (at level 61, p pattern, c at next level, right associativity).

(** ** Binary floating point

    [struct] converts between binary64, the format of a Python
    [float], and the formats of the codes [e] (binary16) and [f]
    (binary32).  A format has [ebits] bits of exponent and [mbits] of
    fraction; a number is carried by the bits of its encoding. *)

Module Float.

(** The encoding, sign left out, of [m * 2^e] for [0 < m], rounded to
    the nearest number of the format, to the even one on a tie.  A
    number too large for the format gives the encoding of infinity. *)
Definition round_to (ebits mbits m e : Z) : Z :=
  let bias := 2 ^ (ebits - 1) - 1 in
  let emin := 1 - bias - mbits in
  let q := Z.max emin (Z.log2 m + e - mbits) in
  let mant :=
    if q <=? e then m * 2 ^ (e - q)
    else
      let s := q - e in
      let t := m / 2 ^ s in
      let r := m mod 2 ^ s in
      let half := 2 ^ (s - 1) in
      if (half <? r) || ((r =? half) && Z.odd t) then t + 1 else t in
  let '(mant, q) :=
    if mant =? 2 ^ (mbits + 1) then (2 ^ mbits, q + 1) else (mant, q) in
  if mant <? 2 ^ mbits then mant
  else
    let biased := q - emin + 1 in
    if 2 ^ ebits - 1 <=? biased then (2 ^ ebits - 1) * 2 ^ mbits
    else biased * 2 ^ mbits + (mant - 2 ^ mbits).

Definition infinity (ebits mbits : Z) : Z := (2 ^ ebits - 1) * 2 ^ mbits.

Definition sign_of (ebits mbits bits : Z) : Z := bits / 2 ^ (ebits + mbits).
Definition exponent_of (ebits mbits bits : Z) : Z :=
  (bits / 2 ^ mbits) mod 2 ^ ebits.
Definition fraction_of (mbits bits : Z) : Z := bits mod 2 ^ mbits.

Definition is_nan (ebits mbits bits : Z) : bool :=
  (exponent_of ebits mbits bits =? 2 ^ ebits - 1)
  && negb (fraction_of mbits bits =? 0).

Definition is_infinite (ebits mbits bits : Z) : bool :=
  (exponent_of ebits mbits bits =? 2 ^ ebits - 1)
  && (fraction_of mbits bits =? 0).

(** The encoding in the format of the number that [bits] encodes in
    the format [(ebits0, mbits0)]; [nan] is what a NaN becomes. *)
Definition convert (ebits0 mbits0 ebits mbits : Z) (nan : Z -> Z -> Z)
    (bits : Z) : Z :=
  let s := sign_of ebits0 mbits0 bits in
  let e := exponent_of ebits0 mbits0 bits in
  let f := fraction_of mbits0 bits in
  let top := s * 2 ^ (ebits + mbits) in
  if e =? 2 ^ ebits0 - 1 then
    if f =? 0 then top + infinity ebits mbits else nan s f
  else if (e =? 0) && (f =? 0) then top
  else
    let bias0 := 2 ^ (ebits0 - 1) - 1 in
    let m := if e =? 0 then f else f + 2 ^ mbits0 in
    top + round_to ebits mbits m (Z.max e 1 - bias0 - mbits0).

(** A C conversion between binary32 and binary64 keeps the sign of a
    NaN and the leading bits of its fraction, and sets the first of
    them. *)
Definition single_of_double (bits : Z) : Z :=
  convert 11 52 8 23
    (fun s f => s * 2 ^ 31 + infinity 8 23 + Z.lor (f / 2 ^ 29) (2 ^ 22))
    bits.

Definition double_of_single (bits : Z) : Z :=
  convert 8 23 11 52
    (fun s f => s * 2 ^ 63 + infinity 11 52 + Z.lor (f * 2 ^ 29) (2 ^ 51))
    bits.

(** [PyFloat_Pack2] and [PyFloat_Unpack2] keep the sign of a NaN and
    nothing else. *)
Definition half_of_double (bits : Z) : Z :=
  convert 11 52 5 10 (fun s _ => s * 2 ^ 15 + infinity 5 10 + 2 ^ 9) bits.

Definition double_of_half (bits : Z) : Z :=
  convert 5 10 11 52 (fun s _ => s * 2 ^ 63 + infinity 11 52 + 2 ^ 51) bits.

(** [float(z)] for an [int]; [None] where [OverflowError] is raised. *)
Definition double_of_int (z : Z) : option Z :=
  if z =? 0 then Some 0
  else
    let bits := round_to 11 52 (Z.abs z) 0 in
    if bits =? infinity 11 52 then None
    else Some ((if z <? 0 then 2 ^ 63 else 0) + bits).

End Float.

(** ** The [struct] module of the standard library

    The part of CPython 3.11's [struct] the codec calls: [calcsize],
    [unpack_from] and [pack_into], over the format codes
    [x c b B ? h H i I l L q Q n N e f d s p P], with repeat counts, the
    order characters [@ = < > !] and native alignment.  What depends on
    the machine is a [platform]. *)

Module Struct.

Record platform : Type := {
  little_endian : bool;   (* byte order of the machine *)
  long_is_8 : bool;       (* sizeof(long) is 8, else 4 *)
  pointer_is_8 : bool;    (* sizeof(void * ) and sizeof(size_t) are 8, else 4 *)
  align8_is_8 : bool      (* long long and double are aligned to 8, else 4 *)
}.

Definition long_size (p : platform) : Z := if long_is_8 p then 8 else 4.
Definition pointer_size (p : platform) : Z := if pointer_is_8 p then 8 else 4.
Definition align8 (p : platform) : Z := if align8_is_8 p then 8 else 4.

(** [PY_SSIZE_T_MAX] *)
Definition ssize_max (p : platform) : Z := 2 ^ (8 * pointer_size p - 1) - 1.

Definition x86_64 : platform :=
  {| little_endian := true; long_is_8 := true;
     pointer_is_8 := true; align8_is_8 := true |}.

(** Native mode ([@] or no order character) uses the machine's sizes,
    alignment and byte order; the others use the standard sizes, no
    alignment, and the byte order they name. *)
Inductive mode : Type :=
| Native
| Standard (little : bool).

Definition order_of (p : platform) (c : ascii) : option mode :=
  match c with
  | "@"%char => Some Native
  | "="%char => Some (Standard (little_endian p))
  | "<"%char => Some (Standard true)
  | ">"%char => Some (Standard false)
  | "!"%char => Some (Standard false)
  | _ => None
  end.

Definition std_size (c : ascii) : option Z :=
  match c with
  | "x"%char | "c"%char | "b"%char | "B"%char | "?"%char
  | "s"%char | "p"%char => Some 1
  | "h"%char | "H"%char | "e"%char => Some 2
  | "i"%char | "I"%char | "l"%char | "L"%char | "f"%char => Some 4
  | "q"%char | "Q"%char | "d"%char => Some 8
  | _ => None
  end.

Definition native_size (p : platform) (c : ascii) : option Z :=
  match c with
  | "l"%char | "L"%char => Some (long_size p)
  | "P"%char | "n"%char | "N"%char => Some (pointer_size p)
  | _ => std_size c
  end.

Definition native_align (p : platform) (c : ascii) : Z :=
  match c with
  | "h"%char | "H"%char | "e"%char => 2
  | "i"%char | "I"%char | "f"%char => 4
  | "l"%char | "L"%char => long_size p
  | "q"%char | "Q"%char | "d"%char => align8 p
  | "P"%char | "n"%char | "N"%char => pointer_size p
  | _ => 1
  end.

(** The table entry of a code: its size, or [None] for a character
    that is not a code of the mode. *)
Definition code_size (p : platform) (m : mode) (c : ascii) : option Z :=
  match m with
  | Native => native_size p c
  | Standard _ => std_size c
  end.

Definition code_align (p : platform) (m : mode) (c : ascii) : Z :=
  match m with
  | Native => native_align p c
  | Standard _ => 1
  end.

Definition mode_little (p : platform) (m : mode) : bool :=
  match m with
  | Native => little_endian p
  | Standard little => little
  end.

Definition is_digit (c : ascii) : bool :=
  (48 <=? nat_of_ascii c)%nat && (nat_of_ascii c <=? 57)%nat.

Definition digit_val (c : ascii) : Z := Z.of_nat (nat_of_ascii c) - 48.

(** C's [isspace] *)
Definition is_space (c : ascii) : bool :=
  Nat.eqb (nat_of_ascii c) 32 ||
  ((9 <=? nat_of_ascii c)%nat && (nat_of_ascii c <=? 13)%nat).

Definition is_ascii (c : ascii) : bool := (nat_of_ascii c <? 128)%nat.

(** A format given as a [str] is encoded to ASCII, and may hold no
    null character. *)
Definition check_format (fmt : list ascii) : result unit :=
  if negb (forallb is_ascii fmt) then Err UnicodeEncodeError
  else if char_in Ascii.zero fmt then Err StructError
  else Ok tt.

(** The items of a format: a repeat count and a code each.  [num] is
    the count read so far.  Spaces between items are skipped; a count
    with no code after it and a character that is no code are errors. *)
Fixpoint parse_items (size_of : ascii -> option Z) (s : list ascii)
    (num : option Z) : result (list (Z * ascii)) :=
  match s with
  | [] =>
      match num with
      | None => Ok []
      | Some _ => Err StructError
      end
  | c :: s' =>
      if is_digit c then
        let n := match num with Some n => n | None => 0 end in
        parse_items size_of s' (Some (10 * n + digit_val c))
      else
        match num, is_space c with
        | None, true => parse_items size_of s' None
        | _, _ =>
            match size_of c with
            | None => Err StructError
            | Some _ =>
                rest <- parse_items size_of s' None ;;
                Ok ((match num with Some n => n | None => 1 end, c) :: rest)
            end
        end
  end.

(** The mode a format string selects, and the items' part of it. *)
Definition mode_of (p : platform) (fmt : list ascii) : mode :=
  match fmt with
  | [] => Native
  | c :: _ =>
      match order_of p c with
      | Some m => m
      | None => Native
      end
  end.

Definition body_of (p : platform) (fmt : list ascii) : list ascii :=
  match fmt with
  | [] => []
  | c :: rest =>
      match order_of p c with
      | Some _ => rest
      | None => fmt
      end
  end.

(** The mode and the items of a format string. *)
Definition prepare (p : platform) (fmt : list ascii)
    : result (mode * list (Z * ascii)) :=
  _ <- check_format fmt ;;
  let m := mode_of p fmt in
  items <- parse_items (code_size p m) (body_of p fmt) None ;;
  Ok (m, items).

Definition item_size (p : platform) (m : mode) (c : ascii) : Z :=
  match code_size p m c with Some n => n | None => 0 end.

Definition align_to (pos a : Z) : Z := (pos + a - 1) / a * a.

(** Where each item starts inside the packed structure, and the size
    of the whole, which may not exceed [PY_SSIZE_T_MAX]. *)
Fixpoint layout (p : platform) (m : mode) (items : list (Z * ascii))
    (pos : Z) : result (list (Z * Z * ascii) * Z) :=
  match items with
  | [] => Ok ([], pos)
  | (n, c) :: rest =>
      let start := align_to pos (code_align p m c) in
      let stop := start + n * item_size p m c in
      if (ssize_max p <? start) || (ssize_max p <? stop)
      then Err StructError
      else
        '(l, total) <- layout p m rest stop ;;
        Ok ((start, n, c) :: l, total)
  end.

(** The compiled form of a format string. *)
Definition compile (p : platform) (fmt : list ascii)
    : result (mode * list (Z * ascii) * list (Z * Z * ascii) * Z) :=
  '(m, items) <- prepare p fmt ;;
  '(its, size) <- layout p m items 0 ;;
  Ok (m, items, its, size).

(** [struct.calcsize(fmt)] *)
Definition calcsize (p : platform) (fmt : list ascii) : result Z :=
  '(_, _, _, size) <- compile p fmt ;;
  Ok size.

(** Integers on the wire. *)
Definition byte_val (b : byte) : Z := Z.of_N (Byte.to_N b).

Definition be_uint (bs : list byte) : Z :=
  fold_left (fun acc b => acc * 256 + byte_val b) bs 0.

Definition uint_of (little : bool) (bs : list byte) : Z :=
  be_uint (if little then rev bs else bs).

Definition to_signed (bits u : Z) : Z :=
  if u <? 2 ^ (bits - 1) then u else u - 2 ^ bits.

Fixpoint be_bytes (n : nat) (z : Z) : list byte :=
  match n with
  | O => []
  | S n' => be_bytes n' (z / 256) ++ [byte_of z]
  end.

Definition bytes_of (little : bool) (n : nat) (z : Z) : list byte :=
  if little then rev (be_bytes n z) else be_bytes n z.

Definition is_signed_code (c : ascii) : bool :=
  char_in c (str "bhilqn").

(** The value of one scalar code read from [bs], which holds exactly
    the bytes of the item. *)
Definition unpack_scalar (little : bool) (c : ascii) (bs : list byte) : value :=
  match c with
  | "c"%char => VBytes bs
  | "?"%char => VBool (negb (uint_of little bs =? 0))
  | "e"%char => VFloat (Float.double_of_half (uint_of little bs))
  | "f"%char => VFloat (Float.double_of_single (uint_of little bs))
  | "d"%char => VFloat (uint_of little bs)
  | _ =>
      if is_signed_code c
      then VInt (to_signed (8 * len bs) (uint_of little bs))
      else VInt (uint_of little bs)
  end.

Definition bytes_at (data : list byte) (pos n : Z) : list byte :=
  firstn (Z.to_nat n) (skipn (Z.to_nat pos) data).

(** The values of one item; [data] starts at the structure's start.
    A Pascal string of width zero asks for a [bytes] object of
    negative length. *)
Definition unpack_item (p : platform) (m : mode) (data : list byte)
    (it : Z * Z * ascii) : result (list value) :=
  let '(pos, n, c) := it in
  match c with
  | "x"%char => Ok []
  | "s"%char => Ok [VBytes (bytes_at data pos n)]
  | "p"%char =>
      if n <? 1 then Err SystemError
      else
        let k := Z.min (be_uint (bytes_at data pos 1)) (n - 1) in
        Ok [VBytes (bytes_at data (pos + 1) k)]
  | _ =>
      let sz := item_size p m c in
      Ok (map (fun i => unpack_scalar (mode_little p m) c
                          (bytes_at data (pos + Z.of_nat i * sz) sz))
              (seq 0 (Z.to_nat n)))
  end.

Fixpoint unpack_items (p : platform) (m : mode) (data : list byte)
    (its : list (Z * Z * ascii)) : result (list value) :=
  match its with
  | [] => Ok []
  | it :: rest =>
      vs <- unpack_item p m data it ;;
      ws <- unpack_items p m data rest ;;
      Ok (vs ++ ws)
  end.

(** A negative offset counts from the end of the buffer; the
    structure must lie inside the buffer. *)
Definition resolve_offset (buff_len offset size : Z) : result Z :=
  let off := if offset <? 0 then offset + buff_len else offset in
  if (off <? 0) || (buff_len - off <? size) then Err StructError
  else Ok off.

(** [struct.unpack_from(fmt, buff, offset)], a tuple. *)
Definition unpack_from (p : platform) (fmt : list ascii) (buff : list byte)
    (offset : Z) : result (list value) :=
  '(m, _, its, size) <- compile p fmt ;;
  off <- resolve_offset (len buff) offset size ;;
  unpack_items p m (bytes_at buff off size) its.

(** The number of arguments a compiled format takes: none for a pad,
    one for a string, one per repetition otherwise. *)
Definition item_nargs (it : Z * ascii) : Z :=
  let (n, c) := it in
  match c with
  | "x"%char => 0
  | "s"%char | "p"%char => 1
  | _ => n
  end.

Definition nargs (items : list (Z * ascii)) : Z :=
  fold_right (fun it acc => item_nargs it + acc) 0 items.

Definition zeros (n : Z) : list byte := repeat x00 (Z.to_nat n).

(** An integer argument; [bool] is a subclass of [int]. *)
Definition as_int (v : value) : result Z :=
  match v with
  | VInt z => Ok z
  | VBool b => Ok (if b then 1 else 0)
  | _ => Err StructError
  end.

(** [PyFloat_AsDouble] as the float codes call it: every failure is
    turned into [struct.error]. *)
Definition as_double (v : value) : result Z :=
  match v with
  | VFloat bits => Ok bits
  | VInt z =>
      match Float.double_of_int z with
      | Some bits => Ok bits
      | None => Err StructError
      end
  | VBool b => Ok (if b then 4607182418800017408 else 0)
  | _ => Err StructError
  end.

(** [OverflowError] raised while an [int] is packed comes out as
    [struct.error]. *)
Definition overflow (v : value) : exn :=
  match v with
  | VInt _ | VBool _ => StructError
  | _ => OverflowError
  end.

(** The range of the integers a code takes. *)
Definition int_range (c : ascii) (sz : Z) : Z * Z :=
  if is_signed_code c then (- 2 ^ (8 * sz - 1), 2 ^ (8 * sz - 1))
  else if Ascii.eqb c "P" then (- 2 ^ (8 * sz - 1), 2 ^ (8 * sz))
  else (0, 2 ^ (8 * sz)).

(** The bytes of one scalar.  Integers are range-checked.  A number
    too large for [e], and for [f] outside native mode, raises
    [OverflowError]; in native mode [f] is a C conversion. *)
Definition pack_scalar (m : mode) (little : bool) (c : ascii) (sz : Z)
    (v : value) : result (list byte) :=
  match c with
  | "c"%char =>
      match v with
      | VBytes [b] => Ok [b]
      | _ => Err StructError
      end
  | "?"%char => Ok [byte_of (if truthy v then 1 else 0)]
  | "e"%char =>
      x <- as_double v ;;
      let y := Float.half_of_double x in
      if Float.is_infinite 5 10 y && negb (Float.is_infinite 11 52 x)
      then Err (overflow v)
      else Ok (bytes_of little 2 y)
  | "f"%char =>
      x <- as_double v ;;
      let y := Float.single_of_double x in
      match m with
      | Native => Ok (bytes_of little 4 y)
      | Standard _ =>
          if Float.is_infinite 8 23 y && negb (Float.is_infinite 11 52 x)
          then Err (overflow v)
          else Ok (bytes_of little 4 y)
      end
  | "d"%char =>
      x <- as_double v ;;
      Ok (bytes_of little 8 x)
  | _ =>
      z <- as_int v ;;
      let (lo, hi) := int_range c sz in
      if (lo <=? z) && (z <? hi)
      then Ok (bytes_of little (Z.to_nat sz) (z mod 2 ^ (8 * sz)))
      else Err StructError
  end.

Fixpoint pack_scalars (m : mode) (little : bool) (c : ascii) (sz : Z)
    (vs : list value) : result (list byte) :=
  match vs with
  | [] => Ok []
  | v :: vs' =>
      bs <- pack_scalar m little c sz v ;;
      rest <- pack_scalars m little c sz vs' ;;
      Ok (bs ++ rest)
  end.

(** [bs] written over the bytes of [buff] from [pos] on.  What would
    fall past the end of the buffer is not seen in it. *)
Definition write_at (buff : list byte) (pos : Z) (bs : list byte)
    : list byte :=
  let bs := firstn (Z.to_nat (len buff - pos)) bs in
  firstn (Z.to_nat pos) buff ++ bs ++ skipn (Z.to_nat (pos + len bs)) buff.

(** One item written into the buffer, the structure starting at
    [base], and the arguments left.  A string is copied up to the
    width of the item, the bytes after it are not touched; a Pascal
    string writes its length in the byte the item starts at, which for
    the width zero is a byte outside the item, the length then being
    -1 as an unsigned byte. *)
Definition pack_item (p : platform) (m : mode) (base : Z) (buff : list byte)
    (it : Z * Z * ascii) (args : list value)
    : result (list byte * list value) :=
  let '(start, n, c) := it in
  match c with
  | "x"%char => Ok (buff, args)
  | "s"%char =>
      '(v, args) <- pop0 args ;;
      match v with
      | VBytes s => Ok (write_at buff (base + start) (firstn (Z.to_nat n) s),
                        args)
      | _ => Err StructError
      end
  | "p"%char =>
      '(v, args) <- pop0 args ;;
      match v with
      | VBytes s =>
          let k := Z.min (len s) (n - 1) in
          let buff := write_at buff (base + start + 1) (firstn (Z.to_nat k) s) in
          Ok (write_at buff (base + start) [byte_of (Z.min k 255)], args)
      | _ => Err StructError
      end
  | _ =>
      '(vs, args) <- pop_many (Z.to_nat n) args ;;
      bs <- pack_scalars m (mode_little p m) c (item_size p m c) vs ;;
      Ok (write_at buff (base + start) bs, args)
  end.

Fixpoint pack_items (p : platform) (m : mode) (base : Z) (buff : list byte)
    (its : list (Z * Z * ascii)) (args : list value) : result (list byte) :=
  match its with
  | [] => Ok buff
  | it :: rest =>
      '(buff, args) <- pack_item p m base buff it args ;;
      pack_items p m base buff rest args
  end.

(** [struct.pack_into(fmt, buff, offset, *args)]: the buffer after the
    call.  The bytes of the structure are cleared, then the items are
    written in order.  The call itself evaluates to [None]. *)
Definition pack_into (p : platform) (fmt : list ascii) (buff : list byte)
    (offset : Z) (args : list value) : result (list byte) :=
  '(m, items, its, size) <- compile p fmt ;;
  if negb (len args =? nargs items) then Err StructError
  else
    off <- resolve_offset (len buff) offset size ;;
    pack_items p m off (write_at buff off (zeros size)) its args.

End Struct.

(** ** The codec: decoding *)

(** An object used as an integer. *)
Definition int_val (v : value) : Py.result Z :=
  match v with
  | VInt z => Ok z
  | VBool b => Ok (if b then 1 else 0)
  | _ => Err TypeError
  end.

Fixpoint unpack_varint_loop (fuel : nat) (buff : list byte)
    (offset size shift result : Z) : Py.result (Z * Z) :=
  match fuel with
  | O => Err OutOfFuel
  | S fuel' =>
      let size := size + 1 in
      i <- ord (slice buff offset (offset + 1)) ;;
      let offset := offset + 1 in
      let result := Z.lor result (Z.shiftl (Z.land i 127) shift) in
      let shift := shift + 7 in
      if Z.land i 128 =? 0 then Ok (size, result)
      else unpack_varint_loop fuel' buff offset size shift result
  end.

(** [unpack_varint_from(buff, offset)] returns [(size, result)].  Every
    turn of the loop reads one more byte of the buffer, so there are no
    more turns than the buffer has bytes, plus the one that fails. *)
Definition unpack_varint_from (buff : list byte) (offset : Z)
    : Py.result (Z * Z) :=
  unpack_varint_loop (S (List.length buff)) buff offset 0 0 0.

Section Decode.

Variable p : Struct.platform.

(** The loop of [_unpack_array]: [count] calls of the walker, each
    starting where the one before stopped. *)
Fixpoint unpack_array_loop (unpack : Z -> Py.result (list value * Z))
    (k : nat) (output : list (list value)) (offset : Z)
    : Py.result (list (list value) * Z) :=
  match k with
  | O => Ok (output, offset)
  | S k' =>
      '(item, offset) <- unpack offset ;;
      unpack_array_loop unpack k' (output ++ [item]) offset
  end.

(** [_unpack_array] over a given walker.  The items are tuples; for a
    format of one character they are chained into one flat list. *)
Definition unpack_array_with
    (unpack : list ascii -> list byte -> Z -> Py.result (list value * Z))
    (fmt : list ascii) (buff : list byte) (offset count : Z)
    : Py.result (list value * Z) :=
  '(output, offset) <-
     unpack_array_loop (unpack fmt buff) (Z.to_nat count) [] offset ;;
  if Nat.eqb (List.length fmt) 1
  then Ok (List.concat output, offset)
  else Ok (map VTuple output, offset).

(** The loop of [_unpack] over the characters left in the format.
    [arr] is the call of [_unpack_array]. *)
Fixpoint walk (arr : list ascii -> list byte -> Z -> Z
                     -> Py.result (list value * Z))
    (buff : list byte) (fmt : list ascii) (items : list value)
    (array_fmt : option (list ascii)) (offset count : Z)
    : Py.result (list value * Z) :=
  match fmt with
  | [] => Ok (items, offset)
  | ch :: fmt' =>
      match array_fmt with
      | Some afmt =>
          if Ascii.eqb ch "]"
             && Nat.eqb (Py.count afmt "[") (Py.count afmt "]")
          then
            vs <- Struct.unpack_from p (str "!i") buff offset ;;
            v <- index vs 0 ;;
            count <- int_val v ;;
            '(array_item, offset) <- arr afmt buff (offset + 4) count ;;
            walk arr buff fmt' (items ++ [VList array_item]) None
                 offset count
          else walk arr buff fmt' items (Some (afmt ++ [ch])) offset count
      | None =>
          if Ascii.eqb ch "[" then
            walk arr buff fmt' items (Some []) offset count
          else if Ascii.eqb ch "V" then
            '(len_, unpacked) <- unpack_varint_from buff offset ;;
            walk arr buff fmt' (items ++ [VInt unpacked]) None
                 (offset + len_) count
          else if char_in ch (str "SY") then
            let len_fmt := if Ascii.eqb ch "S" then str "!h" else str "!i" in
            vs <- Struct.unpack_from p len_fmt buff offset ;;
            v <- index vs 0 ;;
            len_ <- int_val v ;;
            sz <- Struct.calcsize p len_fmt ;;
            let offset := offset + sz in
            if len_ =? -1 then
              walk arr buff fmt' (items ++ [VNone]) None offset count
            else
              let ch := decimal len_ ++ str "s" in
              vs <- Struct.unpack_from p ("!"%char :: ch) buff offset ;;
              sz <- Struct.calcsize p ch ;;
              walk arr buff fmt' (items ++ vs) None (offset + sz) count
          else
            vs <- Struct.unpack_from p ["!"%char; ch] buff offset ;;
            sz <- Struct.calcsize p [ch] ;;
            walk arr buff fmt' (items ++ vs) None (offset + sz) count
      end
  end.

(** [_unpack] with a bound [n] on the depth of the calls through
    [_unpack_array]. *)
Fixpoint unpack_fuel (n : nat) (fmt : list ascii) (buff : list byte)
    (offset count : Z) : Py.result (list value * Z) :=
  walk (fun afmt buff offset count =>
          match n with
          | O => Err OutOfFuel
          | S n' =>
              unpack_array_with
                (fun fmt buff offset => unpack_fuel n' fmt buff offset 1)
                afmt buff offset count
          end)
       buff fmt [] None offset count.

(** [_unpack(fmt, buff, offset, count)] returns [(tuple(items), offset)].
    A format handed to [_unpack_array] is shorter than the one it was
    cut from, so the length of the format bounds the depth. *)
Definition _unpack (fmt : list ascii) (buff : list byte) (offset count : Z)
    : Py.result (list value * Z) :=
  unpack_fuel (List.length fmt) fmt buff offset count.

(** [_unpack_array(fmt, buff, offset, count)] returns [(output, offset)]. *)
Definition _unpack_array (fmt : list ascii) (buff : list byte)
    (offset count : Z) : Py.result (list value * Z) :=
  unpack_array_with (fun fmt buff offset => _unpack fmt buff offset 1)
                    fmt buff offset count.

(** The format as [unpack_from] hands it to [_unpack]: spaces removed,
    a leading order character dropped. *)
Definition normalize (fmt : list ascii) : Py.result (list ascii) :=
  let fmt := remove_char " " fmt in
  c <- index fmt 0 ;;
  Ok (if char_in c (str "!><") then tl fmt else fmt).

(** [unpack_from(fmt, buff, offset)] *)
Definition unpack_from (fmt : list ascii) (buff : list byte) (offset : Z)
    : Py.result value :=
  fmt <- normalize fmt ;;
  '(output, _) <- _unpack fmt buff offset 1 ;;
  c <- index fmt 0 ;;
  if Ascii.eqb c "[" && Nat.eqb (List.length output) 1
  then index output 0
  else Ok (VTuple output).

End Decode.

(** ** The codec: encoding *)

Section Encode.

Variable p : Struct.platform.

(** The loop of [pack_varint_into].  What it hands to
    [struct.pack_into] for the code [c] is the value of [chr], a [str]. *)
Fixpoint pack_varint_loop (fuel : nat) (buff : list byte)
    (offset val size : Z) : Py.result (list byte * Z) :=
  match fuel with
  | O => Err OutOfFuel
  | S fuel' =>
      let towrite := Z.land val 127 in
      let val := Z.shiftr val 7 in
      let size := size + 1 in
      if negb (val =? 0) then
        buff <- Struct.pack_into p (str "c") buff offset
                  [chr (Z.lor towrite 128)] ;;
        pack_varint_loop fuel' buff (offset + 1) val size
      else
        buff <- Struct.pack_into p (str "c") buff offset
                  [chr towrite] ;;
        Ok (buff, size)
  end.

(** [pack_varint_into(buff, offset, val)] returns [size]; the buffer
    after the call comes with it.  Every turn of the loop packs at an
    offset one more than the turn before, and [struct] accepts the
    offsets from [-len(buff)] to [len(buff) - 1] only. *)
Definition pack_varint_into (buff : list byte) (offset val : Z)
    : Py.result (list byte * Z) :=
  pack_varint_loop (S (2 * List.length buff)) buff offset val 0.

(** The pattern [[^xcbB\?hHiIlLqQfdspP]]: the characters it matches. *)
Definition NOARG_STRUCT_FMTS (c : ascii) : bool :=
  negb (char_in c (str "xcbB?hHiIlLqQfdspP")).

(** [re.sub(pattern, '', s)] for a pattern of one character class *)
Definition re_sub_empty (pattern : ascii -> bool) (s : list ascii)
    : list ascii :=
  filter (fun c => negb (pattern c)) s.

(** [re.split('(V)', s)]: the runs between the [V]s and the [V]s
    themselves; [cur] is the run being read. *)
Fixpoint re_split_V (s : list ascii) (cur : list ascii)
    : list (list ascii) :=
  match s with
  | [] => [cur]
  | c :: s' =>
      if Ascii.eqb c "V" then cur :: [c] :: re_split_V s' []
      else re_split_V s' (cur ++ [c])
  end.

Definition nonempty {A} (l : list A) : bool :=
  match l with [] => false | _ => true end.

(** [[p for p in re.split('(V)', fmt) if p]] *)
Definition parts (fmt : list ascii) : list (list ascii) :=
  filter nonempty (re_split_V fmt []).

Definition str_eqb (a b : list ascii) : bool :=
  if list_eq_dec ascii_dec a b then true else false.

Definition startswith (s pre : list ascii) : bool :=
  str_eqb (firstn (List.length pre) s) pre.

(** The format [struct.pack_into] gets for part [i]. *)
Definition prefixed (fmt : list ascii) (i : nat) (fmt_part : list ascii)
    : list ascii :=
  if startswith fmt (str "!") && negb (Nat.eqb i 0)
  then "!"%char :: fmt_part
  else fmt_part.

(** How many arguments the loop pops for a fixed-width part. *)
Definition args_only_fmt (fmt_part : list ascii) : list ascii :=
  re_sub_empty NOARG_STRUCT_FMTS fmt_part.

(** The loop of [pack_into] over [enumerate(parts)]. *)
Fixpoint pack_parts (fmt : list ascii) (ps : list (list ascii)) (i : nat)
    (buff : list byte) (offset : Z) (args : list value) (size : Z)
    : Py.result (list byte * Z) :=
  match ps with
  | [] => Ok (buff, size)
  | fmt_part :: ps' =>
      if negb (str_eqb fmt_part (str "V")) then
        '(part_args, args) <-
           pop_many (List.length (args_only_fmt fmt_part)) args ;;
        buff <- Struct.pack_into p (prefixed fmt i fmt_part) buff offset
                  part_args ;;
        fmtsize <- Struct.calcsize p (prefixed fmt i fmt_part) ;;
        pack_parts fmt ps' (S i) buff (offset + fmtsize) args
                   (size + fmtsize)
      else
        '(v, args) <- pop0 args ;;
        val <- int_val v ;;
        '(buff, fmtsize) <- pack_varint_into buff offset val ;;
        pack_parts fmt ps' (S i) buff (offset + fmtsize) args
                   (size + fmtsize)
  end.

(** [pack_into(fmt, buff, offset, *args)]: the buffer after the call
    and the value returned. *)
Definition pack_into (fmt : list ascii) (buff : list byte) (offset : Z)
    (args : list value) : Py.result (list byte * value) :=
  if char_in "V" fmt then
    '(buff, size) <- pack_parts fmt (parts fmt) 0 buff offset args 0 ;;
    Ok (buff, VInt size)
  else
    buff <- Struct.pack_into p fmt buff offset args ;;
    Ok (buff, VNone).

End Encode.

(** ** Sample data *)

Definition bytes_of_list (l : list Z) : list byte := map byte_of l.

Definition zero_buffer (n : nat) : list byte := repeat x00 n.

Definition bit_length (v : Z) : Z := if v =? 0 then 0 else Z.log2 v + 1.

(** [max(1, ceil(bit_length(v) / 7))] *)
Definition varint_size (v : Z) : Z := Z.max 1 ((bit_length v + 6) / 7).

(** The integers the loop of [pack_varint_into] hands to [chr], one a
    turn: seven bits of the value each, the lowest first, with the top
    bit set on all but the last.  A value that is not negative is
    brought to zero in [varint_size] turns, see [varint_bytes_length]. *)
Fixpoint varint_bytes_loop (fuel : nat) (val : Z) : list Z :=
  match fuel with
  | O => []
  | S fuel' =>
      let towrite := Z.land val 127 in
      let val := Z.shiftr val 7 in
      if negb (val =? 0) then Z.lor towrite 128 :: varint_bytes_loop fuel' val
      else [towrite]
  end.

Definition varint_bytes (val : Z) : list Z :=
  varint_bytes_loop (Z.to_nat (varint_size val)) val.


(** [s] closes every bracket it opens, in order, [depth] brackets
    being open where it starts. *)
Fixpoint well_nested (s : list ascii) (depth : nat) : bool :=
  match s with
  | [] => Nat.eqb depth 0
  | c :: s' =>
      if Ascii.eqb c "[" then well_nested s' (S depth)
      else if Ascii.eqb c "]" then
        match depth with
        | O => false
        | S d => well_nested s' d
        end
      else well_nested s' depth
  end.

(** The walker reads a code with its standard size and moves the
    cursor by its native size; the two differ for [l] and [L] where a C
    long has eight bytes, by four. *)
Definition overshoot (p : Struct.platform) (fmt : list ascii) : Z :=
  if Struct.long_is_8 p && (char_in "l" fmt || char_in "L" fmt)
  then 4 else 0.

(** The number of arguments [struct] takes for a format. *)
Definition struct_nargs (p : Struct.platform) (fmt : list ascii)
    : Py.result Z :=
  '(_, items, _, _) <- Struct.compile p fmt ;;
  Ok (Struct.nargs items).

(** The buffer of the array example: count 3, then 1, 2, 3. *)
Definition array_example : list byte :=
  bytes_of_list [0;0;0;3; 0;0;0;1; 0;0;0;2; 0;0;0;3].

(** The values of the round-trip property. *)
Definition round_trip_values : list Z :=
  [0; 1; 127; 128; 300; 2 ^ 32 - 1; 2 ^ 63 - 1].

(** The number a run of decimal digits denotes, read after [init]. *)
Definition digits_value (ds : list ascii) (init : Z) : Z :=
  fold_left (fun a d => 10 * a + Struct.digit_val d) ds init.

(** The array format the walker is collecting, if any. *)
Definition acc_of (array_fmt : option (list ascii)) : list ascii :=
  match array_fmt with Some a => a | None => [] end.

(** * Properties *)

(** ** The error monad *)

Lemma bind_ok {A B} (c : Py.result A) (k : A -> Py.result B) (b : B) :
  bind c k = Ok b -> exists a, c = Ok a /\ k a = Ok b.
Proof. destruct c as [a|e]; simpl; intros H; [eauto | discriminate]. Qed.

Lemma bind_err {A B} (c : Py.result A) (k : A -> Py.result B) (e : exn) :
  bind c k = Err e -> c = Err e \/ exists a, c = Ok a /\ k a = Err e.
Proof.
  destruct c as [a|e']; simpl; intros H; [eauto | left; congruence].
Qed.

Ltac inv_bind H :=
  let a := fresh "a" in
  let Ha := fresh "Ha" in
  apply bind_ok in H; destruct H as (a & Ha & H).

(** ** Bytes *)

Lemma byte_val_byte_of (z : Z) :
  0 <= z < 256 -> Struct.byte_val (byte_of z) = z.
Proof.
  intros Hz. unfold Struct.byte_val, byte_of.
  rewrite Z.mod_small by lia.
  destruct (Byte.of_N (Z.to_N z)) as [b|] eqn:E.
  - apply Byte.to_of_N in E. rewrite E. lia.
  - apply Byte.of_N_None_iff in E. lia.
Qed.

Lemma ord_byte_of (z : Z) : 0 <= z < 256 -> ord [byte_of z] = Ok z.
Proof. intros Hz. unfold ord. f_equal. apply (byte_val_byte_of z Hz). Qed.

Lemma len_app {A} (l1 l2 : list A) : len (l1 ++ l2) = len l1 + len l2.
Proof. unfold len. rewrite length_app. lia. Qed.

Lemma len_nonneg {A} (l : list A) : 0 <= len l.
Proof. unfold len. lia. Qed.

Ltac bind_inv H x Hx :=
  apply bind_ok in H; destruct H as (x & Hx & H).

(** ** Slices of one byte *)

Lemma slice_one (buff : list byte) (o : Z) (b : byte) :
  0 <= o -> nth_error buff (Z.to_nat o) = Some b ->
  slice buff o (o + 1) = [b].
Proof.
  intros Ho Hn.
  assert (Hlt : (Z.to_nat o < List.length buff)%nat)
    by (apply nth_error_Some; congruence).
  apply nth_error_split in Hn. destruct Hn as (l1 & l2 & -> & Hl1).
  unfold slice, clamp, len in *.
  destruct (o <? 0) eqn:E1; [lia|].
  destruct (o + 1 <? 0) eqn:E2; [lia|].
  rewrite length_app in *. simpl in *.
  rewrite !Z.min_r, !Z.max_r by lia.
  replace (o + 1 - o) with 1 by lia.
  rewrite <- Hl1, skipn_app, skipn_all, Nat.sub_diag. reflexivity.
Qed.

Lemma slice_one_range (buff : list byte) (o i : Z) :
  ord (slice buff o (o + 1)) = Ok i ->
  0 <= o < len buff \/ - len buff <= o <= -2.
Proof.
  intros H.
  assert (Hlen : List.length (slice buff o (o + 1)) = 1%nat).
  { destruct (slice buff o (o + 1)) as [|b [|c l]]; simpl in H;
      try discriminate; reflexivity. }
  unfold slice in Hlen. rewrite length_firstn, length_skipn in Hlen.
  unfold clamp, len in *.
  destruct (o <? 0) eqn:E1; destruct (o + 1 <? 0) eqn:E2; lia.
Qed.

(** ** Offsets *)

Lemma resolve_offset_ok (n offset size off : Z) :
  Struct.resolve_offset n offset size = Ok off ->
  0 <= off /\ off + size <= n /\
  (0 <= offset -> off = offset) /\ (offset < 0 -> off = offset + n).
Proof.
  unfold Struct.resolve_offset. intros H.
  destruct (offset <? 0) eqn:E;
    match type of H with (if ?c then _ else _) = _ =>
      destruct c eqn:E2 end; inversion H; subst; lia.
Qed.

Lemma resolve_offset_err (n offset size : Z) (e : exn) :
  Struct.resolve_offset n offset size = Err e -> e = StructError.
Proof.
  unfold Struct.resolve_offset. intros H.
  match type of H with (if ?c then _ else _) = _ =>
    destruct c end; congruence.
Qed.

Lemma resolve_offset_nonneg (n offset size : Z) :
  0 <= offset -> offset + size <= n ->
  Struct.resolve_offset n offset size = Ok offset.
Proof.
  intros H1 H2. unfold Struct.resolve_offset.
  rewrite !(proj2 (Z.ltb_ge offset 0)) by lia.
  rewrite (proj2 (Z.ltb_ge (n - offset) size)) by lia. reflexivity.
Qed.

Lemma resolve_offset_short (n offset size : Z) :
  0 <= offset -> n < offset + size ->
  Struct.resolve_offset n offset size = Err StructError.
Proof.
  intros Ho Hs. unfold Struct.resolve_offset.
  rewrite !(proj2 (Z.ltb_ge offset 0)) by lia.
  rewrite (proj2 (Z.ltb_lt (n - offset) size)) by lia. reflexivity.
Qed.

(** ** The varint decoder *)

Lemma slice_app_one (buff extra : list byte) (o : Z) :
  0 <= o < len buff ->
  slice (buff ++ extra) o (o + 1) = slice buff o (o + 1).
Proof.
  intros Ho. unfold len in Ho.
  destruct (nth_error buff (Z.to_nat o)) as [b|] eqn:E.
  - rewrite (slice_one buff o b) by (lia || assumption).
    apply slice_one; [lia|]. rewrite nth_error_app1 by lia. assumption.
  - apply nth_error_None in E. lia.
Qed.

Lemma unpack_varint_loop_ok (fuel : nat) :
  forall buff offset size shift result n r,
  unpack_varint_loop fuel buff offset size shift result = Ok (n, r) ->
  size < n /\ (0 <= offset -> offset + (n - size) <= len buff).
Proof.
  induction fuel as [|fuel IH]; intros buff offset size shift result n r H;
    simpl in H; [discriminate|].
  inv_bind H. pose proof (slice_one_range _ _ _ Ha) as Hr.
  destruct (Z.land a 128 =? 0).
  - inversion H; subst. lia.
  - apply IH in H. lia.
Qed.

Lemma unpack_varint_loop_ext (fuel : nat) :
  forall buff extra offset size shift result n r fuel',
  0 <= offset -> (fuel <= fuel')%nat ->
  unpack_varint_loop fuel buff offset size shift result = Ok (n, r) ->
  unpack_varint_loop fuel' (buff ++ extra) offset size shift result = Ok (n, r).
Proof.
  induction fuel as [|fuel IH];
    intros buff extra offset size shift result n r fuel' Ho Hf H;
    simpl in H; [discriminate|].
  destruct fuel' as [|fuel']; [lia|]. simpl.
  inv_bind H. pose proof (slice_one_range _ _ _ Ha) as Hr.
  rewrite slice_app_one by lia. rewrite Ha. simpl.
  destruct (Z.land a 128 =? 0); [assumption|].
  apply IH; [lia | lia | assumption].
Qed.

Lemma unpack_varint_loop_fuel (fuel : nat) :
  forall buff offset size shift result,
  (0 < fuel)%nat ->
  (0 <= offset -> len buff - offset < Z.of_nat fuel) ->
  (- len buff <= offset < 0 -> -1 - offset < Z.of_nat fuel) ->
  unpack_varint_loop fuel buff offset size shift result <> Err OutOfFuel.
Proof.
  induction fuel as [|fuel IH]; intros buff offset size shift result Hf H1 H2 H;
    [lia|].
  simpl in H.
  destruct (ord (slice buff offset (offset + 1))) as [i|e] eqn:E; simpl in H.
  - pose proof (slice_one_range _ _ _ E) as Hr.
    destruct (Z.land i 128 =? 0); [discriminate|].
    apply IH in H; [assumption| | |]; lia.
  - unfold ord in E.
    destruct (slice buff offset (offset + 1)) as [|b [|c l]];
      try discriminate; congruence.
Qed.

Lemma unpack_varint_from_total (buff : list byte) (offset : Z) :
  unpack_varint_from buff offset <> Err OutOfFuel.
Proof.
  unfold unpack_varint_from. apply unpack_varint_loop_fuel; unfold len; lia.
Qed.

Lemma unpack_varint_from_ok (buff : list byte) (offset n r : Z) :
  unpack_varint_from buff offset = Ok (n, r) ->
  1 <= n /\ (0 <= offset -> offset + n <= len buff).
Proof.
  intros H. apply unpack_varint_loop_ok in H. lia.
Qed.

Lemma unpack_varint_from_ext (buff extra : list byte) (offset n r : Z) :
  0 <= offset ->
  unpack_varint_from buff offset = Ok (n, r) ->
  unpack_varint_from (buff ++ extra) offset = Ok (n, r).
Proof.
  intros Ho H. unfold unpack_varint_from in *.
  eapply unpack_varint_loop_ext; [assumption| |eassumption].
  rewrite length_app. lia.
Qed.

(** ** The [struct] module *)

Section StructFacts.

Variable p : Struct.platform.

Lemma digit_val_nonneg (c : ascii) :
  Struct.is_digit c = true -> 0 <= Struct.digit_val c <= 9.
Proof.
  unfold Struct.is_digit, Struct.digit_val. intros H.
  apply andb_true_iff in H. destruct H as (H1 & H2).
  apply Nat.leb_le in H1, H2. lia.
Qed.

Lemma parse_items_counts (size_of : ascii -> option Z) (s : list ascii) :
  forall num items,
  match num with Some n => 0 <= n | None => True end ->
  Struct.parse_items size_of s num = Ok items ->
  Forall (fun it => 0 <= fst it /\ size_of (snd it) <> None) items.
Proof.
  induction s as [|c s IH]; intros num items Hnum H;
    cbn -[Z.mul Z.add] in H.
  - destruct num; [discriminate|]. inversion H. constructor.
  - destruct (Struct.is_digit c) eqn:Ed.
    + apply IH in H; [assumption|].
      pose proof (digit_val_nonneg c Ed).
      destruct num; cbn -[Z.mul Z.add] in *; lia.
    + assert (Hcode :
        match size_of c with
        | None => Err StructError
        | Some _ =>
            rest <- Struct.parse_items size_of s None ;;
            Ok ((match num with Some n => n | None => 1 end, c) :: rest)
        end = Ok items ->
        Forall (fun it => 0 <= fst it /\ size_of (snd it) <> None) items).
      { intros Hc. destruct (size_of c) eqn:Es; [|discriminate].
        inv_bind Hc. inversion Hc; subst. constructor.
        - simpl. split; [destruct num; lia | congruence].
        - eapply IH; [|eassumption]. exact I. }
      destruct num as [n|]; [apply Hcode; assumption|].
      destruct (Struct.is_space c); [|apply Hcode; assumption].
      eapply IH; [|eassumption]. exact I.
Qed.

Lemma code_align_pos (m : Struct.mode) (c : ascii) :
  1 <= Struct.code_align p m c <= 8.
Proof.
  destruct m; simpl; [|lia].
  unfold Struct.native_align, Struct.long_size, Struct.align8,
    Struct.pointer_size.
  destruct (Struct.long_is_8 p), (Struct.align8_is_8 p),
    (Struct.pointer_is_8 p);
    destruct c as [[] [] [] [] [] [] [] []]; lia.
Qed.

Lemma item_size_nonneg (m : Struct.mode) (c : ascii) :
  0 <= Struct.item_size p m c.
Proof.
  unfold Struct.item_size, Struct.code_size.
  destruct m; simpl.
  - unfold Struct.native_size, Struct.std_size, Struct.long_size,
      Struct.pointer_size.
    destruct (Struct.long_is_8 p), (Struct.pointer_is_8 p);
      destruct c as [[] [] [] [] [] [] [] []]; lia.
  - unfold Struct.std_size. destruct c as [[] [] [] [] [] [] [] []]; lia.
Qed.

Lemma align_to_ge (pos a : Z) : 1 <= a -> pos <= Struct.align_to pos a.
Proof.
  intros Ha. unfold Struct.align_to.
  pose proof (Z.div_mod (pos + a - 1) a ltac:(lia)).
  pose proof (Z.mod_pos_bound (pos + a - 1) a ltac:(lia)). nia.
Qed.

Lemma layout_size_ge (m : Struct.mode) (items : list (Z * ascii)) :
  forall pos its size,
  Forall (fun it => 0 <= fst it) items ->
  Struct.layout p m items pos = Ok (its, size) ->
  pos <= size.
Proof.
  induction items as [|[n c] items IH]; intros pos its size HF H;
    cbn [Struct.layout] in H.
  - injection H as _ <-. lia.
  - inversion HF as [|? ? Hn HF']; subst. cbn [fst] in Hn.
    destruct (_ || _); [discriminate|].
    bind_inv H x Hx. destruct x as [l total]. injection H as _ <-.
    apply IH in Hx; [|assumption].
    pose proof (align_to_ge pos _ (proj1 (code_align_pos m c))).
    pose proof (item_size_nonneg m c). nia.
Qed.

Lemma layout_error (m : Struct.mode) (items : list (Z * ascii)) :
  forall pos e, Struct.layout p m items pos = Err e -> e = StructError.
Proof.
  induction items as [|[n c] items IH]; intros pos e H;
    cbn [Struct.layout] in H; [discriminate|].
  destruct (_ || _); [congruence|].
  apply bind_err in H. destruct H as [H | ([l total] & _ & H)];
    [eapply IH; eassumption | discriminate].
Qed.

Lemma prepare_counts (fmt : list ascii) (m : Struct.mode)
    (items : list (Z * ascii)) :
  Struct.prepare p fmt = Ok (m, items) ->
  Forall (fun it => 0 <= fst it) items.
Proof.
  unfold Struct.prepare. intros H. bind_inv H u Hu. bind_inv H its Hits.
  inversion H; subst.
  apply parse_items_counts in Hits; [|exact I].
  eapply Forall_impl; [|eassumption]. intros it [Hit _]. exact Hit.
Qed.

Lemma compile_inv (fmt : list ascii) (m : Struct.mode)
    (items : list (Z * ascii)) (its : list (Z * Z * ascii)) (size : Z) :
  Struct.compile p fmt = Ok (m, items, its, size) ->
  Struct.prepare p fmt = Ok (m, items) /\
  Struct.layout p m items 0 = Ok (its, size) /\ 0 <= size.
Proof.
  unfold Struct.compile. intros H.
  bind_inv H x Hx. destruct x as [m' items'].
  bind_inv H y Hy. destruct y as [its' size'].
  injection H as -> -> -> ->.
  split; [assumption|]. split; [assumption|].
  eapply layout_size_ge; [|exact Hy]. eapply prepare_counts. exact Hx.
Qed.

Lemma calcsize_compile (fmt : list ascii) (size : Z) :
  Struct.calcsize p fmt = Ok size ->
  exists m items its, Struct.compile p fmt = Ok (m, items, its, size).
Proof.
  unfold Struct.calcsize. intros H.
  bind_inv H x Hx. destruct x as [[[m items] its] size'].
  injection H as ->. eauto.
Qed.

Lemma compile_calcsize (fmt : list ascii) (m : Struct.mode)
    (items : list (Z * ascii)) (its : list (Z * Z * ascii)) (size : Z) :
  Struct.compile p fmt = Ok (m, items, its, size) ->
  Struct.calcsize p fmt = Ok size.
Proof. unfold Struct.calcsize. intros ->. reflexivity. Qed.

Lemma calcsize_nonneg (fmt : list ascii) (n : Z) :
  Struct.calcsize p fmt = Ok n -> 0 <= n.
Proof.
  intros H. destruct (calcsize_compile _ _ H) as (m & items & its & Hc).
  apply compile_inv in Hc. tauto.
Qed.

Lemma bytes_at_app (buff extra : list byte) (off size : Z) :
  0 <= off -> off + size <= len buff ->
  Struct.bytes_at (buff ++ extra) off size = Struct.bytes_at buff off size.
Proof.
  intros Ho Hs. unfold Struct.bytes_at, len in *.
  destruct (Z_le_gt_dec size 0) as [Hneg|Hpos].
  { replace (Z.to_nat size) with 0%nat by lia. reflexivity. }
  rewrite skipn_app.
  replace (Z.to_nat off - List.length buff)%nat with 0%nat by lia.
  simpl. rewrite firstn_app, length_skipn.
  replace (Z.to_nat size - (List.length buff - Z.to_nat off))%nat
    with 0%nat by lia.
  simpl. apply app_nil_r.
Qed.

(** A read that succeeds lies inside the buffer. *)
Lemma struct_unpack_from_bound (fmt : list ascii) (buff : list byte)
    (offset : Z) (vs : list value) :
  0 <= offset ->
  Struct.unpack_from p fmt buff offset = Ok vs ->
  exists size, Struct.calcsize p fmt = Ok size /\ offset + size <= len buff.
Proof.
  intros Ho H. unfold Struct.unpack_from in H.
  bind_inv H x Hx. destruct x as [[[m items] its] size].
  bind_inv H off Hoff. apply resolve_offset_ok in Hoff.
  exists size. split; [eapply compile_calcsize; eassumption|].
  destruct Hoff as (_ & H1 & H2 & _). rewrite <- (H2 Ho). assumption.
Qed.

(** A read that succeeds gives the same values on a longer buffer. *)
Lemma struct_unpack_from_ext (fmt : list ascii) (buff extra : list byte)
    (offset : Z) (vs : list value) :
  0 <= offset ->
  Struct.unpack_from p fmt buff offset = Ok vs ->
  Struct.unpack_from p fmt (buff ++ extra) offset = Ok vs.
Proof.
  intros Ho H. unfold Struct.unpack_from in *.
  bind_inv H x Hx. destruct x as [[[m items] its] size].
  rewrite Hx. cbn [bind].
  bind_inv H off Hoff. apply resolve_offset_ok in Hoff.
  destruct Hoff as (H0 & H1 & H2 & _). rewrite (H2 Ho) in *.
  rewrite resolve_offset_nonneg
    by (try rewrite len_app; pose proof (len_nonneg extra); lia).
  cbn [bind]. rewrite bytes_at_app by lia. assumption.
Qed.

Lemma parse_items_error (size_of : ascii -> option Z) (s : list ascii) :
  forall num e,
  Struct.parse_items size_of s num = Err e -> e = StructError.
Proof.
  induction s as [|c s IH]; intros num e H; simpl in H.
  - destruct num; congruence.
  - destruct (Struct.is_digit c); [eapply IH; eassumption|].
    assert (Hcode :
      match size_of c with
      | None => Err StructError
      | Some _ =>
          rest <- Struct.parse_items size_of s None ;;
          Ok ((match num with Some n => n | None => 1 end, c) :: rest)
      end = Err e -> e = StructError).
    { intros Hc. destruct (size_of c); [|congruence].
      apply bind_err in Hc. destruct Hc as [Hc | (a & _ & Hc)];
        [eapply IH; eassumption | discriminate]. }
    destruct num as [n|]; [apply Hcode; assumption|].
    destruct (Struct.is_space c); [eapply IH; eassumption|].
    apply Hcode; assumption.
Qed.

Lemma check_format_error (fmt : list ascii) (e : exn) :
  Struct.check_format fmt = Err e ->
  e = StructError \/ e = UnicodeEncodeError.
Proof.
  unfold Struct.check_format. intros H.
  destruct (negb _); [right; congruence|].
  destruct (char_in _ _); [left; congruence | discriminate].
Qed.

Lemma compile_error (fmt : list ascii) (e : exn) :
  Struct.compile p fmt = Err e ->
  e = StructError \/ e = UnicodeEncodeError.
Proof.
  unfold Struct.compile, Struct.prepare. intros H.
  apply bind_err in H. destruct H as [H | ([m items] & _ & H)].
  - apply bind_err in H. destruct H as [H | (u & _ & H)].
    + apply (check_format_error fmt). assumption.
    + apply bind_err in H. destruct H as [H | (a & _ & H)]; [|discriminate].
      left. eapply parse_items_error. eassumption.
  - apply bind_err in H. destruct H as [H | ([its size] & _ & H)];
      [|discriminate].
    left. eapply layout_error. eassumption.
Qed.

Lemma unpack_items_error (m : Struct.mode) (data : list byte)
    (its : list (Z * Z * ascii)) (e : exn) :
  Struct.unpack_items p m data its = Err e -> e = SystemError.
Proof.
  induction its as [|[[pos n] c] its IH]; intros H; simpl in H;
    [discriminate|].
  apply bind_err in H. destruct H as [H | (vs & _ & H)].
  - destruct c as [[] [] [] [] [] [] [] []]; simpl in H; try discriminate.
    destruct (n <? 1); congruence.
  - apply bind_err in H. destruct H as [H | (ws & _ & H)];
      [apply IH; assumption | discriminate].
Qed.

Lemma struct_unpack_from_error (fmt : list ascii) (buff : list byte)
    (offset : Z) (e : exn) :
  Struct.unpack_from p fmt buff offset = Err e -> e <> OutOfFuel.
Proof.
  unfold Struct.unpack_from. intros H.
  apply bind_err in H. destruct H as [H | ([[[m items] its] size] & _ & H)].
  - apply (compile_error fmt e) in H. destruct H; congruence.
  - apply bind_err in H. destruct H as [H | (off & _ & H)].
    + apply resolve_offset_err in H. congruence.
    + apply unpack_items_error in H. congruence.
Qed.

Lemma calcsize_error (fmt : list ascii) (e : exn) :
  Struct.calcsize p fmt = Err e -> e <> OutOfFuel.
Proof.
  unfold Struct.calcsize. intros H.
  apply bind_err in H.
  destruct H as [H | ([[[m items] its] size] & _ & H)]; [|discriminate].
  apply (compile_error fmt e) in H. destruct H; congruence.
Qed.

(** [struct] takes no [str] for the code [c]. *)
Lemma pack_c_str (buff : list byte) (offset : Z) (s : list ascii) :
  Struct.pack_into p (str "c") buff offset [VStr s] = Err StructError.
Proof.
  unfold Struct.pack_into.
  replace (Struct.compile p (str "c"))
    with (@Ok (Struct.mode * list (Z * ascii) * list (Z * Z * ascii) * Z)
              (Struct.Native, [(1, "c"%char)], [(0, 1, "c"%char)], 1))
    by (destruct p as [le l8 [] a8]; reflexivity).
  cbn [bind]. change (negb (len [VStr s] =? Struct.nargs [(1, "c"%char)]))
    with false. cbv iota.
  destruct (Struct.resolve_offset (len buff) offset 1) as [off|e] eqn:E.
  - reflexivity.
  - apply resolve_offset_err in E. subst e. reflexivity.
Qed.

End StructFacts.

(** ** Decimal numerals in a format *)

Lemma digit_char_spec (d : Z) :
  0 <= d <= 9 ->
  Struct.is_digit (digit_char d) = true /\
  Struct.digit_val (digit_char d) = d.
Proof.
  intros Hd.
  assert (H : d = 0 \/ d = 1 \/ d = 2 \/ d = 3 \/ d = 4 \/ d = 5 \/ d = 6
              \/ d = 7 \/ d = 8 \/ d = 9) by lia.
  repeat (destruct H as [H|H]; [subst; split; reflexivity|]).
  subst; split; reflexivity.
Qed.

Lemma parse_items_digits (size_of : ascii -> option Z) (ds : list ascii) :
  forall num tail,
  Forall (fun d => Struct.is_digit d = true) ds -> ds <> [] ->
  Struct.parse_items size_of (ds ++ tail) num =
  Struct.parse_items size_of tail
    (Some (digits_value ds (match num with Some n => n | None => 0 end))).
Proof.
  induction ds as [|d ds IH]; intros num tail HF Hne; [congruence|].
  inversion HF; subst. cbn -[Z.mul Z.add]. rewrite H1.
  destruct ds as [|d' ds]; [reflexivity|].
  rewrite IH; [reflexivity | assumption | discriminate].
Qed.

Lemma digits_acc_spec (fuel : nat) :
  forall n acc,
  0 <= n < 10 ^ (Z.of_nat fuel + 1) ->
  Forall (fun d => Struct.is_digit d = true) acc ->
  Forall (fun d => Struct.is_digit d = true) (digits_acc fuel n acc) /\
  digits_acc fuel n acc <> [] /\
  digits_value (digits_acc fuel n acc) 0 = digits_value acc n.
Proof.
  assert (Hlast : forall n acc, 0 <= n < 10 ->
    Forall (fun d => Struct.is_digit d = true) acc ->
    Forall (fun d => Struct.is_digit d = true) (digit_char n :: acc) /\
    digit_char n :: acc <> [] /\
    digits_value (digit_char n :: acc) 0 = digits_value acc n).
  { intros n acc Hn HF. destruct (digit_char_spec n ltac:(lia)) as (H1 & H2).
    split; [constructor; assumption|]. split; [discriminate|].
    unfold digits_value. cbn [fold_left]. rewrite H2. f_equal. }
  induction fuel as [|fuel IH]; intros n acc Hn HF.
  - simpl. apply Hlast; [simpl in Hn; lia | assumption].
  - cbn [digits_acc].
    destruct (n <? 10) eqn:E.
    + apply Z.ltb_lt in E. apply Hlast; [lia | assumption].
    + apply Z.ltb_ge in E.
      assert (Hpow : 10 ^ (Z.of_nat (S fuel) + 1)
                     = 10 * 10 ^ (Z.of_nat fuel + 1)).
      { replace (Z.of_nat (S fuel) + 1) with (Z.succ (Z.of_nat fuel + 1))
          by lia. apply Z.pow_succ_r. lia. }
      pose proof (Z.mod_pos_bound n 10 ltac:(lia)) as Hm.
      pose proof (Z.div_mod n 10 ltac:(lia)) as Hd.
      destruct (digit_char_spec (n mod 10) ltac:(lia)) as (H1 & H2).
      destruct (IH (n / 10) (digit_char (n mod 10) :: acc)) as (A & B & C).
      * split; [apply Z.div_pos; lia|].
        apply Z.div_lt_upper_bound; lia.
      * constructor; assumption.
      * split; [assumption|]. split; [assumption|].
        rewrite C. unfold digits_value. cbn [fold_left].
        rewrite H2. f_equal. lia.
Qed.

Lemma decimal_nonneg (n : Z) :
  0 <= n ->
  Forall (fun d => Struct.is_digit d = true) (decimal n) /\
  decimal n <> [] /\ digits_value (decimal n) 0 = n.
Proof.
  intros Hn. unfold decimal.
  destruct (n <? 0) eqn:E; [apply Z.ltb_lt in E; lia|].
  apply digits_acc_spec; [|constructor].
  split; [assumption|].
  destruct (Z.eq_dec n 0) as [->|Hnz]; [reflexivity|].
  pose proof (Z.log2_spec n ltac:(lia)) as (_ & Hlt).
  pose proof (Z.log2_nonneg n).
  rewrite Z2Nat.id by assumption.
  eapply Z.lt_le_trans; [exact Hlt|].
  replace (Z.succ (Z.log2 n)) with (Z.log2 n + 1) by lia.
  apply Z.pow_le_mono_l. lia.
Qed.

Lemma digit_not_order (p : Struct.platform) (d : ascii) :
  Struct.is_digit d = true -> Struct.order_of p d = None.
Proof.
  destruct d as [[] [] [] [] [] [] [] []]; intros H;
    try reflexivity; discriminate H.
Qed.

Lemma digit_plain (d : ascii) :
  Struct.is_digit d = true ->
  Struct.is_ascii d = true /\ Ascii.eqb Ascii.zero d = false.
Proof.
  destruct d as [[] [] [] [] [] [] [] []]; intros H;
    try discriminate H; split; reflexivity.
Qed.

Lemma check_format_digits (pre ds post : list ascii) :
  Forall (fun d => Struct.is_digit d = true) ds ->
  Struct.check_format (pre ++ post) = Ok tt ->
  Struct.check_format (pre ++ ds ++ post) = Ok tt.
Proof.
  intros HF. unfold Struct.check_format, char_in.
  rewrite !forallb_app, !existsb_app.
  assert (H1 : forallb Struct.is_ascii ds = true).
  { apply forallb_forall. intros d Hd.
    rewrite Forall_forall in HF. apply (digit_plain d (HF d Hd)). }
  assert (H2 : existsb (Ascii.eqb Ascii.zero) ds = false).
  { clear H1. induction HF as [|d ds Hd _ IH]; [reflexivity|].
    cbn [existsb]. rewrite (proj2 (digit_plain d Hd)). exact IH. }
  rewrite H1, H2. cbn [andb orb]. intros H. exact H.
Qed.

Lemma decimal_digits (n : Z) :
  exists ds, Forall (fun d => Struct.is_digit d = true) ds /\
             decimal n = (if n <? 0 then ["-"%char] else []) ++ ds.
Proof.
  destruct (n <? 0) eqn:E.
  - unfold decimal. rewrite E.
    apply Z.ltb_lt in E. eexists. split; [|reflexivity].
    apply (digits_acc_spec _ (- n) []); [|constructor].
    split; [lia|].
    pose proof (Z.log2_spec (- n) ltac:(lia)) as (_ & Hlt).
    pose proof (Z.log2_nonneg (- n)).
    rewrite Z2Nat.id by assumption.
    eapply Z.lt_le_trans; [exact Hlt|].
    replace (Z.succ (Z.log2 (- n))) with (Z.log2 (- n) + 1) by lia.
    apply Z.pow_le_mono_l. lia.
  - apply Z.ltb_ge in E. exists (decimal n). split; [|reflexivity].
    apply (decimal_nonneg n E).
Qed.

Section StringFormat.

Variable p : Struct.platform.

Lemma ssize_max_pos : 2 ^ 31 - 1 <= Struct.ssize_max p.
Proof.
  unfold Struct.ssize_max, Struct.pointer_size.
  destruct (Struct.pointer_is_8 p); simpl; lia.
Qed.

(** The format ['%ds' % n], with or without the order character. *)
Lemma prepare_counted_string (n : Z) :
  0 <= n ->
  Struct.prepare p ("!"%char :: decimal n ++ str "s")
    = Ok (Struct.Standard false, [(n, "s"%char)]) /\
  Struct.prepare p (decimal n ++ str "s")
    = Ok (Struct.Native, [(n, "s"%char)]).
Proof.
  intros Hn. destruct (decimal_nonneg n Hn) as (HF & Hne & Hv).
  split.
  - unfold Struct.prepare.
    pose proof (check_format_digits ["!"%char] (decimal n) (str "s") HF
                  eq_refl) as Hchk.
    cbn [app] in Hchk. rewrite Hchk.
    cbn [bind Struct.mode_of Struct.body_of Struct.order_of].
    simpl Struct.order_of. cbv iota.
    rewrite parse_items_digits by assumption. rewrite Hv. reflexivity.
  - unfold Struct.prepare.
    pose proof (check_format_digits [] (decimal n) (str "s") HF eq_refl)
      as Hchk.
    cbn [app] in Hchk. rewrite Hchk. cbn [bind].
    destruct (decimal n) as [|d ds] eqn:E; [congruence|].
    pose proof (Forall_inv HF) as H1.
    cbn [Struct.mode_of Struct.body_of app].
    rewrite (digit_not_order p d H1).
    change (d :: ds ++ str "s") with ((d :: ds) ++ str "s").
    rewrite parse_items_digits by (assumption || discriminate).
    rewrite Hv. reflexivity.
Qed.

Lemma layout_string (m : Struct.mode) (n : Z) :
  0 <= n <= Struct.ssize_max p ->
  Struct.layout p m [(n, "s"%char)] 0 = Ok ([(0, n, "s"%char)], n).
Proof.
  intros Hn. cbn [Struct.layout].
  replace (Struct.code_align p m "s") with 1 by (destruct m; reflexivity).
  replace (Struct.item_size p m "s") with 1 by (destruct m; reflexivity).
  change (Struct.align_to 0 1) with 0.
  replace (0 + n * 1) with n by lia.
  pose proof ssize_max_pos.
  rewrite (proj2 (Z.ltb_ge (Struct.ssize_max p) 0)) by lia.
  rewrite (proj2 (Z.ltb_ge (Struct.ssize_max p) n)) by lia.
  reflexivity.
Qed.

Lemma compile_counted_string (n : Z) :
  0 <= n <= Struct.ssize_max p ->
  Struct.compile p ("!"%char :: decimal n ++ str "s")
    = Ok (Struct.Standard false, [(n, "s"%char)], [(0, n, "s"%char)], n) /\
  Struct.compile p (decimal n ++ str "s")
    = Ok (Struct.Native, [(n, "s"%char)], [(0, n, "s"%char)], n).
Proof.
  intros Hn. destruct (prepare_counted_string n (proj1 Hn)) as (H1 & H2).
  unfold Struct.compile. rewrite H1, H2. cbn [bind].
  rewrite !layout_string by assumption. split; reflexivity.
Qed.

Lemma bytes_at_nested (buff : list byte) (off n : Z) :
  Struct.bytes_at (Struct.bytes_at buff off n) 0 n = Struct.bytes_at buff off n.
Proof.
  unfold Struct.bytes_at. simpl. rewrite firstn_firstn, Nat.min_id. reflexivity.
Qed.

Lemma unpack_counted_string (n : Z) (buff : list byte) (offset : Z) :
  0 <= n <= Struct.ssize_max p ->
  Struct.unpack_from p ("!"%char :: decimal n ++ str "s") buff offset =
  (off <- Struct.resolve_offset (len buff) offset n ;;
   Ok [VBytes (Struct.bytes_at buff off n)]).
Proof.
  intros Hn. unfold Struct.unpack_from.
  rewrite (proj1 (compile_counted_string n Hn)). cbn [bind].
  destruct (Struct.resolve_offset (len buff) offset n) as [off|e];
    [|reflexivity].
  cbn [bind Struct.unpack_items Struct.unpack_item app].
  rewrite bytes_at_nested. reflexivity.
Qed.

Lemma calcsize_counted_string (n : Z) :
  0 <= n <= Struct.ssize_max p ->
  Struct.calcsize p (decimal n ++ str "s") = Ok n.
Proof.
  intros Hn. unfold Struct.calcsize.
  rewrite (proj2 (compile_counted_string n Hn)). reflexivity.
Qed.

Lemma calcsize_counted_string_std (n : Z) :
  0 <= n <= Struct.ssize_max p ->
  Struct.calcsize p ("!"%char :: decimal n ++ str "s") = Ok n.
Proof.
  intros Hn. unfold Struct.calcsize.
  rewrite (proj1 (compile_counted_string n Hn)). reflexivity.
Qed.

Lemma unpack_negative_string (n : Z) (buff : list byte) (offset : Z) :
  n < 0 ->
  Struct.unpack_from p ("!"%char :: decimal n ++ str "s") buff offset
  = Err StructError.
Proof.
  intros Hn. destruct (decimal_digits n) as (ds & HF & E).
  rewrite (proj2 (Z.ltb_lt n 0) Hn) in E. rewrite E.
  unfold Struct.unpack_from, Struct.compile, Struct.prepare.
  pose proof (check_format_digits ["!"%char; "-"%char] ds (str "s") HF
                eq_refl) as Hchk.
  cbn [app] in Hchk |- *. rewrite Hchk. reflexivity.
Qed.

End StringFormat.

(** ** The walker *)

Lemma index_error {A} (l : list A) (i : nat) (e : exn) :
  index l i = Err e -> e = IndexError.
Proof. unfold index. destruct (nth_error l i); congruence. Qed.

Lemma int_val_error (v : value) (e : exn) :
  int_val v = Err e -> e = TypeError.
Proof. destruct v; simpl; congruence. Qed.

Section Walker.

Variable p : Struct.platform.

(** The cursor after a code is the cursor before it plus the native
    size of the code, the bytes read are as many as its standard size:
    the first is never less, and more by four at most. *)
Lemma single_code_sizes (ch : ascii) (n s : Z) :
  Struct.calcsize p [ch] = Ok n ->
  Struct.calcsize p ["!"%char; ch] = Ok s ->
  s <= n <= s + (Struct.long_size p - 4).
Proof.
  destruct p as [le l8 p8 a8].
  destruct ch as [[] [] [] [] [] [] [] []];
    destruct l8, a8, p8; intros H1 H2; vm_compute in H1, H2;
    try discriminate;
    injection H1 as <-; injection H2 as <-;
    unfold Struct.long_size; cbn; lia.
Qed.

Lemma long_slack : 0 <= Struct.long_size p - 4.
Proof. unfold Struct.long_size. destruct (Struct.long_is_8 p); lia. Qed.

Lemma unpack_array_loop_monotone
    (unpack : Z -> Py.result (list value * Z)) (k : nat) :
  forall output offset r e,
  (forall o r e, unpack o = Ok (r, e) -> o <= e) ->
  unpack_array_loop unpack k output offset = Ok (r, e) -> offset <= e.
Proof.
  induction k as [|k IH]; intros output offset r e Hu H; simpl in H.
  - inversion H; subst. lia.
  - apply bind_ok in H. destruct H as ([item o1] & H1 & H).
    apply Hu in H1. apply IH in H; [lia | assumption].
Qed.

Lemma unpack_array_with_monotone
    (unpack : list ascii -> list byte -> Z -> Py.result (list value * Z))
    (fmt : list ascii) (buff : list byte) (offset count : Z)
    (r : list value) (e : Z) :
  (forall o r e, unpack fmt buff o = Ok (r, e) -> o <= e) ->
  unpack_array_with unpack fmt buff offset count = Ok (r, e) -> offset <= e.
Proof.
  intros Hu H. unfold unpack_array_with in H.
  apply bind_ok in H. destruct H as ([output o1] & H1 & H).
  apply unpack_array_loop_monotone in H1; [|assumption].
  destruct (Nat.eqb (List.length fmt) 1); inversion H; subst; assumption.
Qed.

Lemma walk_monotone
    (arr : list ascii -> list byte -> Z -> Z -> Py.result (list value * Z))
    (buff : list byte) (fmt : list ascii) :
  forall items array_fmt offset count r e,
  (forall afmt o c r e, arr afmt buff o c = Ok (r, e) -> o <= e) ->
  walk p arr buff fmt items array_fmt offset count = Ok (r, e) ->
  offset <= e.
Proof.
  induction fmt as [|ch fmt IH]; intros items array_fmt offset count r e Ha H;
    cbn [walk] in H.
  - inversion H; subst. lia.
  - destruct array_fmt as [afmt|].
    + destruct (Ascii.eqb ch "]" && _).
      * apply bind_ok in H. destruct H as (vs & _ & H).
        apply bind_ok in H. destruct H as (v & _ & H).
        apply bind_ok in H. destruct H as (cnt & _ & H).
        apply bind_ok in H. destruct H as ([ai o1] & H1 & H).
        apply Ha in H1. apply IH in H; [lia | assumption].
      * apply IH in H; assumption.
    + destruct (Ascii.eqb ch "[").
      { apply IH in H; assumption. }
      destruct (Ascii.eqb ch "V").
      { apply bind_ok in H. destruct H as ([n u] & H1 & H).
        apply unpack_varint_from_ok in H1. apply IH in H; [lia|assumption]. }
      destruct (char_in ch (str "SY")).
      { apply bind_ok in H. destruct H as (vs & _ & H).
        apply bind_ok in H. destruct H as (v & _ & H).
        apply bind_ok in H. destruct H as (n & _ & H).
        apply bind_ok in H. destruct H as (sz & Hsz & H).
        apply calcsize_nonneg in Hsz.
        destruct (n =? -1).
        - apply IH in H; [lia|assumption].
        - apply bind_ok in H. destruct H as (ws & _ & H).
          apply bind_ok in H. destruct H as (sz2 & Hsz2 & H).
          apply calcsize_nonneg in Hsz2.
          apply IH in H; [lia|assumption]. }
      apply bind_ok in H. destruct H as (vs & _ & H).
      apply bind_ok in H. destruct H as (sz & Hsz & H).
      apply calcsize_nonneg in Hsz.
      apply IH in H; [lia|assumption].
Qed.

Lemma unpack_fuel_eq (n : nat) (fmt : list ascii) (buff : list byte)
    (offset count : Z) :
  unpack_fuel p n fmt buff offset count =
  walk p (fun afmt buff offset count =>
            match n with
            | O => Err OutOfFuel
            | S n' =>
                unpack_array_with
                  (fun fmt buff offset => unpack_fuel p n' fmt buff offset 1)
                  afmt buff offset count
            end)
       buff fmt [] None offset count.
Proof. destruct n; reflexivity. Qed.

Lemma unpack_fuel_monotone (n : nat) :
  forall fmt buff offset count r e,
  unpack_fuel p n fmt buff offset count = Ok (r, e) -> offset <= e.
Proof.
  induction n as [|n IH]; intros fmt buff offset count r e H;
    rewrite unpack_fuel_eq in H; eapply walk_monotone; try exact H.
  - intros; discriminate.
  - intros afmt o c r0 e0 H0. cbv beta in H0.
    eapply unpack_array_with_monotone; [|exact H0].
    intros o1 r1 e1 H1. cbv beta in H1. eapply IH; exact H1.
Qed.

End Walker.

Lemma calcsize_int16 (p : Struct.platform) :
  Struct.calcsize p (str "!h") = Ok 2.
Proof. destruct p as [le l8 [] a8]; reflexivity. Qed.

Lemma calcsize_int32 (p : Struct.platform) :
  Struct.calcsize p (str "!i") = Ok 4.
Proof. destruct p as [le l8 [] a8]; reflexivity. Qed.

Section WalkerBuffer.

Variable p : Struct.platform.

Lemma calcsize_counted_string_inv (n sz : Z) :
  0 <= n ->
  Struct.calcsize p (decimal n ++ str "s") = Ok sz
  \/ Struct.calcsize p ("!"%char :: decimal n ++ str "s") = Ok sz ->
  sz = n /\ n <= Struct.ssize_max p.
Proof.
  intros Hn H.
  destruct (Z_le_gt_dec n (Struct.ssize_max p)) as [Hle|Hgt].
  - rewrite calcsize_counted_string, calcsize_counted_string_std in H by lia.
    split; [|assumption]. destruct H; congruence.
  - exfalso.
    destruct (prepare_counted_string p n Hn) as (H1 & H2).
    assert (Hlay : forall m, Struct.layout p m [(n, "s"%char)] 0
                             = Err StructError).
    { intros m. cbn [Struct.layout].
      replace (Struct.code_align p m "s") with 1 by (destruct m; reflexivity).
      replace (Struct.item_size p m "s") with 1 by (destruct m; reflexivity).
      change (Struct.align_to 0 1) with 0.
      replace (0 + n * 1) with n by lia.
      rewrite (proj2 (Z.ltb_lt (Struct.ssize_max p) n)) by lia.
      rewrite orb_true_r. reflexivity. }
    unfold Struct.calcsize, Struct.compile in H.
    rewrite H1, H2 in H. cbn [bind] in H. rewrite !Hlay in H.
    destruct H; discriminate.
Qed.

(** Decoding from a non-negative offset reads inside the buffer: the
    cursor ends inside it, up to the four bytes by which it overshoots
    an [l] or [L] where a C long has eight, and bytes added after the
    buffer's end change nothing. *)
Lemma unpack_array_loop_stable
    (unpack unpack' : Z -> Py.result (list value * Z)) (bound : Z) (k : nat) :
  forall output offset r e,
  (forall o r e, 0 <= o -> unpack o = Ok (r, e) ->
     o <= e /\ e <= Z.max o bound /\ unpack' o = Ok (r, e)) ->
  0 <= offset ->
  unpack_array_loop unpack k output offset = Ok (r, e) ->
  e <= Z.max offset bound /\
  unpack_array_loop unpack' k output offset = Ok (r, e).
Proof.
  induction k as [|k IH]; intros output offset r e Hu Ho H; cbn in H |- *.
  - inversion H; subst. split; [lia | reflexivity].
  - bind_inv H x Hx. destruct x as [item o1].
    destruct (Hu _ _ _ Ho Hx) as (H1 & H2 & H3).
    rewrite H3. cbn [bind].
    assert (Ho1 : 0 <= o1) by lia.
    destruct (IH _ _ _ _ Hu Ho1 H) as (H4 & H5).
    split; [lia | assumption].
Qed.

Lemma unpack_array_with_stable
    (unpack : list ascii -> list byte -> Z -> Py.result (list value * Z))
    (fmt : list ascii) (buff buff' : list byte) (bound offset count : Z)
    (r : list value) (e : Z) :
  (forall o r e, 0 <= o -> unpack fmt buff o = Ok (r, e) ->
     o <= e /\ e <= Z.max o bound /\ unpack fmt buff' o = Ok (r, e)) ->
  0 <= offset ->
  unpack_array_with unpack fmt buff offset count = Ok (r, e) ->
  e <= Z.max offset bound /\
  unpack_array_with unpack fmt buff' offset count = Ok (r, e).
Proof.
  intros Hu Ho H. unfold unpack_array_with in *.
  bind_inv H x Hx. destruct x as [output o1].
  destruct (unpack_array_loop_stable _ _ _ _ _ _ _ _ Hu Ho Hx) as (H1 & H2).
  rewrite H2. cbn [bind].
  destruct (Nat.eqb (List.length fmt) 1); inversion H; subst;
    (split; [assumption | reflexivity]).
Qed.

End WalkerBuffer.

(** The walker reads a code with its standard size and moves by its
    native size.  [slack] bounds the difference over the codes [good]
    accepts. *)
Section WalkerSlack.

Variable p : Struct.platform.
Variable slack : Z.
Variable good : ascii -> bool.
Hypothesis slack_nonneg : 0 <= slack.
Hypothesis good_sizes : forall ch n s,
  good ch = true ->
  Struct.calcsize p [ch] = Ok n ->
  Struct.calcsize p ["!"%char; ch] = Ok s ->
  n <= s + slack.

Lemma walk_stable
    (arr : list ascii -> list byte -> Z -> Z -> Py.result (list value * Z))
    (buff extra : list byte) (fmt : list ascii) :
  forall items array_fmt offset count r e,
  (forall afmt o c r e, forallb good afmt = true -> 0 <= o ->
     arr afmt buff o c = Ok (r, e) ->
     o <= e /\ e <= Z.max o (len buff + slack) /\
     arr afmt (buff ++ extra) o c = Ok (r, e)) ->
  forallb good fmt = true ->
  forallb good (acc_of array_fmt) = true ->
  0 <= offset ->
  walk p arr buff fmt items array_fmt offset count = Ok (r, e) ->
  e <= Z.max offset (len buff + slack) /\
  walk p arr (buff ++ extra) fmt items array_fmt offset count = Ok (r, e).
Proof.
  pose proof slack_nonneg as Hs.
  induction fmt as [|ch fmt IH];
    intros items array_fmt offset count r e Ha Hg Hacc Ho H;
    cbn [walk] in H |- *.
  - inversion H; subst. split; [lia | reflexivity].
  - cbn [forallb] in Hg. apply andb_prop in Hg. destruct Hg as (Hch & Hg).
    destruct array_fmt as [afmt|]; cbn [acc_of] in Hacc.
    + destruct (Ascii.eqb ch "]" && _).
      * bind_inv H vs Hvs. bind_inv H v Hv. bind_inv H cnt Hc.
        bind_inv H x Hx. destruct x as [ai o1].
        destruct (struct_unpack_from_bound p _ _ _ _ Ho Hvs) as (sz & Hsz & Hb).
        rewrite calcsize_int32 in Hsz. injection Hsz as <-.
        rewrite (struct_unpack_from_ext p _ _ extra _ _ Ho Hvs). cbn [bind].
        rewrite Hv. cbn [bind]. rewrite Hc. cbn [bind].
        destruct (Ha _ _ _ _ _ Hacc (ltac:(lia) : 0 <= offset + 4) Hx)
          as (H0 & H1 & H2).
        rewrite H2. cbn [bind].
        assert (Ho1 : 0 <= o1) by lia.
        destruct (IH _ None _ _ _ _ Ha Hg eq_refl Ho1 H) as (H3 & H4).
        split; [lia | assumption].
      * apply IH; try assumption.
        cbn [acc_of]. rewrite forallb_app, Hacc. cbn [forallb].
        rewrite Hch. reflexivity.
    + destruct (Ascii.eqb ch "[").
      { apply IH; first [assumption | reflexivity]. }
      destruct (Ascii.eqb ch "V").
      { bind_inv H x Hx. destruct x as [n u].
        destruct (unpack_varint_from_ok _ _ _ _ Hx) as (Hn & Hb).
        specialize (Hb Ho).
        rewrite (unpack_varint_from_ext _ extra _ _ _ Ho Hx). cbn [bind].
        destruct (IH _ None _ _ _ _ Ha Hg eq_refl
                     (ltac:(lia) : 0 <= offset + n) H)
          as (H3 & H4).
        split; [lia | assumption]. }
      destruct (char_in ch (str "SY")).
      { bind_inv H vs Hvs. bind_inv H v Hv. bind_inv H n Hn.
        bind_inv H sz Hsz.
        destruct (struct_unpack_from_bound p _ _ _ _ Ho Hvs) as (sz' & Hsz' & Hb).
        assert (sz' = sz) by congruence. subst sz'.
        pose proof (calcsize_nonneg p _ _ Hsz) as Hsz0.
        rewrite (struct_unpack_from_ext p _ _ extra _ _ Ho Hvs). cbn [bind].
        rewrite Hv. cbn [bind]. rewrite Hn. cbn [bind]. rewrite Hsz. cbn [bind].
        destruct (n =? -1).
        - destruct (IH _ None _ _ _ _ Ha Hg eq_refl
                       (ltac:(lia) : 0 <= offset + sz) H)
            as (H3 & H4).
          split; [lia | assumption].
        - bind_inv H ws Hws. bind_inv H sz2 Hsz2.
          destruct (Z_lt_le_dec n 0) as [Hneg|Hpos].
          { rewrite (unpack_negative_string p n _ _ Hneg) in Hws.
            discriminate. }
          assert (Ho2 : 0 <= offset + sz) by lia.
          destruct (struct_unpack_from_bound p _ _ _ _ Ho2 Hws)
            as (sz3 & Hsz3 & Hb3).
          destruct (calcsize_counted_string_inv p n sz3 Hpos (or_intror Hsz3))
            as (-> & _).
          destruct (calcsize_counted_string_inv p n sz2 Hpos (or_introl Hsz2))
            as (-> & _).
          rewrite (struct_unpack_from_ext p _ _ extra _ _ Ho2 Hws).
          cbn [bind]. rewrite Hsz2. cbn [bind].
          destruct (IH _ None _ _ _ _ Ha Hg eq_refl
                       (ltac:(lia) : 0 <= offset + sz + n) H)
            as (H3 & H4).
          split; [lia | assumption]. }
      bind_inv H vs Hvs. bind_inv H sz Hsz.
      destruct (struct_unpack_from_bound p _ _ _ _ Ho Hvs) as (sz' & Hsz' & Hb).
      pose proof (good_sizes ch _ _ Hch Hsz Hsz') as Hcmp.
      pose proof (proj1 (single_code_sizes p ch _ _ Hsz Hsz')) as Hcmp'.
      pose proof (calcsize_nonneg p _ _ Hsz') as Hsz0.
      rewrite (struct_unpack_from_ext p _ _ extra _ _ Ho Hvs). cbn [bind].
      rewrite Hsz. cbn [bind].
      destruct (IH _ None _ _ _ _ Ha Hg eq_refl
                   (ltac:(lia) : 0 <= offset + sz) H)
        as (H3 & H4).
      split; [lia | assumption].
Qed.

Lemma unpack_fuel_stable_within (n : nat) :
  forall fmt buff extra offset count r e,
  forallb good fmt = true ->
  0 <= offset ->
  unpack_fuel p n fmt buff offset count = Ok (r, e) ->
  e <= Z.max offset (len buff + slack) /\
  unpack_fuel p n fmt (buff ++ extra) offset count = Ok (r, e).
Proof.
  induction n as [|n IH]; intros fmt buff extra offset count r e Hg Ho H;
    rewrite unpack_fuel_eq in H |- *;
    (eapply walk_stable; [|exact Hg|reflexivity|exact Ho|exact H]).
  - intros; discriminate.
  - intros afmt o c r0 e0 Hg0 Ho0 H0. cbv beta in H0 |- *.
    split; [eapply unpack_array_with_monotone; [|exact H0];
            intros o1 r1 e1 H1; eapply unpack_fuel_monotone; exact H1|].
    eapply unpack_array_with_stable; [|exact Ho0|exact H0].
    intros o1 r1 e1 Ho1 H1. cbv beta in H1 |- *.
    split; [eapply unpack_fuel_monotone; exact H1|].
    apply IH; assumption.
Qed.

End WalkerSlack.

Lemma forallb_all {A} (l : list A) : forallb (fun _ => true) l = true.
Proof. induction l; [reflexivity | assumption]. Qed.

Lemma single_code_same (p : Struct.platform) (ch : ascii) (n s : Z) :
  negb (Ascii.eqb ch "l" || Ascii.eqb ch "L") = true ->
  Struct.calcsize p [ch] = Ok n ->
  Struct.calcsize p ["!"%char; ch] = Ok s ->
  n <= s + 0.
Proof.
  destruct p as [le l8 p8 a8].
  destruct ch as [[] [] [] [] [] [] [] []];
    destruct l8, a8, p8; intros H0 H1 H2; vm_compute in H0, H1, H2;
    try discriminate;
    injection H1 as <-; injection H2 as <-; lia.
Qed.

Lemma forallb_not_long (fmt : list ascii) :
  char_in "l" fmt || char_in "L" fmt = false ->
  forallb (fun ch => negb (Ascii.eqb ch "l" || Ascii.eqb ch "L")) fmt = true.
Proof.
  induction fmt as [|c fmt IH]; [reflexivity|].
  unfold char_in. cbn [existsb forallb]. fold (char_in "l" fmt).
  fold (char_in "L" fmt).
  rewrite (Ascii.eqb_sym "l" c), (Ascii.eqb_sym "L" c).
  destruct (Ascii.eqb c "l"), (Ascii.eqb c "L"); cbn [orb negb andb];
    intros H; rewrite ?orb_true_r in H; try discriminate.
  exact (IH H).
Qed.

Section WalkerStable.

Variable p : Struct.platform.

Lemma unpack_fuel_stable (n : nat) :
  forall fmt buff extra offset count r e,
  0 <= offset ->
  unpack_fuel p n fmt buff offset count = Ok (r, e) ->
  e <= Z.max offset (len buff + (Struct.long_size p - 4)) /\
  unpack_fuel p n fmt (buff ++ extra) offset count = Ok (r, e).
Proof.
  intros fmt buff extra offset count r e Ho H.
  apply (unpack_fuel_stable_within p (Struct.long_size p - 4)
           (fun _ => true) (long_slack p)); try assumption.
  - intros ch n0 s _ H1 H2.
    pose proof (single_code_sizes p ch _ _ H1 H2). lia.
  - apply forallb_all.
Qed.

(** The cursor ends inside the buffer, or four bytes past it when the
    format holds an [l] or [L] and a C long has eight bytes. *)
Lemma unpack_fuel_bound (n : nat) (fmt : list ascii) (buff : list byte)
    (offset count : Z) (r : list value) (e : Z) :
  0 <= offset ->
  unpack_fuel p n fmt buff offset count = Ok (r, e) ->
  e <= Z.max offset (len buff + overshoot p fmt).
Proof.
  intros Ho H. unfold overshoot.
  destruct (Struct.long_is_8 p) eqn:E8; cbn [andb].
  - destruct (char_in "l" fmt || char_in "L" fmt) eqn:El.
    + destruct (unpack_fuel_stable n fmt buff [] offset count r e Ho H)
        as (Hb & _).
      unfold Struct.long_size in Hb. rewrite E8 in Hb. lia.
    + refine (proj1 (unpack_fuel_stable_within p 0 _ (Z.le_refl 0)
                (single_code_same p) n fmt buff [] offset count r e
                (forallb_not_long fmt El) Ho H)).
  - destruct (unpack_fuel_stable n fmt buff [] offset count r e Ho H)
      as (Hb & _).
    unfold Struct.long_size in Hb. rewrite E8 in Hb. lia.
Qed.

End WalkerStable.

Section WalkerFuel.

Variable p : Struct.platform.

(** *** Fuel *)

Lemma unpack_array_loop_no_fuel_error
    (unpack : Z -> Py.result (list value * Z)) (k : nat) :
  forall output offset,
  (forall o, unpack o <> Err OutOfFuel) ->
  unpack_array_loop unpack k output offset <> Err OutOfFuel.
Proof.
  induction k as [|k IH]; intros output offset Hu H; cbn in H.
  - discriminate.
  - apply bind_err in H. destruct H as [H | ([item o1] & _ & H)].
    + exact (Hu _ H).
    + exact (IH _ _ Hu H).
Qed.

Lemma unpack_array_with_no_fuel_error
    (unpack : list ascii -> list byte -> Z -> Py.result (list value * Z))
    (fmt : list ascii) (buff : list byte) (offset count : Z) :
  (forall o, unpack fmt buff o <> Err OutOfFuel) ->
  unpack_array_with unpack fmt buff offset count <> Err OutOfFuel.
Proof.
  intros Hu H. unfold unpack_array_with in H.
  apply bind_err in H. destruct H as [H | ([output o1] & _ & H)].
  - exact (unpack_array_loop_no_fuel_error _ _ _ _ Hu H).
  - destruct (Nat.eqb (List.length fmt) 1); discriminate.
Qed.

Lemma walk_no_fuel_error
    (arr : list ascii -> list byte -> Z -> Z -> Py.result (list value * Z))
    (buff : list byte) (fmt : list ascii) :
  forall items array_fmt offset count,
  (forall afmt o c,
     (List.length afmt < List.length fmt + List.length (acc_of array_fmt))%nat ->
     arr afmt buff o c <> Err OutOfFuel) ->
  walk p arr buff fmt items array_fmt offset count <> Err OutOfFuel.
Proof.
  induction fmt as [|ch fmt IH]; intros items array_fmt offset count Ha H;
    cbn [walk] in H.
  - discriminate.
  - destruct array_fmt as [afmt|]; cbn [acc_of List.length] in Ha.
    + destruct (Ascii.eqb ch "]" && _).
      * apply bind_err in H. destruct H as [H | (vs & _ & H)].
        { exact (struct_unpack_from_error p _ _ _ _ H eq_refl). }
        apply bind_err in H. destruct H as [H | (v & _ & H)].
        { apply index_error in H. discriminate. }
        apply bind_err in H. destruct H as [H | (cnt & _ & H)].
        { apply int_val_error in H. discriminate. }
        apply bind_err in H. destruct H as [H | ([ai o1] & _ & H)].
        { apply Ha in H; [assumption | lia]. }
        apply IH in H; [assumption|].
        intros a o c Hl. apply Ha. cbn [acc_of List.length] in Hl. lia.
      * apply IH in H; [assumption|].
        intros a o c Hl. apply Ha. cbn [acc_of] in Hl.
        rewrite length_app in Hl. cbn [List.length] in Hl. lia.
    + destruct (Ascii.eqb ch "[").
      { apply IH in H; [assumption|].
        intros a o c Hl. apply Ha. cbn [acc_of List.length] in Hl. lia. }
      assert (Ha' : forall a o c,
        (List.length a < List.length fmt + List.length (acc_of None))%nat ->
        arr a buff o c <> Err OutOfFuel).
      { intros a o c Hl. apply Ha. cbn [acc_of List.length] in Hl. lia. }
      destruct (Ascii.eqb ch "V").
      { apply bind_err in H. destruct H as [H | ([n u] & _ & H)].
        - exact (unpack_varint_from_total _ _ H).
        - exact (IH _ _ _ _ Ha' H). }
      destruct (char_in ch (str "SY")).
      { apply bind_err in H. destruct H as [H | (vs & _ & H)].
        { exact (struct_unpack_from_error p _ _ _ _ H eq_refl). }
        apply bind_err in H. destruct H as [H | (v & _ & H)].
        { apply index_error in H. discriminate. }
        apply bind_err in H. destruct H as [H | (n & _ & H)].
        { apply int_val_error in H. discriminate. }
        apply bind_err in H. destruct H as [H | (sz & _ & H)].
        { exact (calcsize_error p _ _ H eq_refl). }
        destruct (n =? -1).
        - exact (IH _ _ _ _ Ha' H).
        - apply bind_err in H. destruct H as [H | (ws & _ & H)].
          { exact (struct_unpack_from_error p _ _ _ _ H eq_refl). }
          apply bind_err in H. destruct H as [H | (sz2 & _ & H)].
          { exact (calcsize_error p _ _ H eq_refl). }
          exact (IH _ _ _ _ Ha' H). }
      apply bind_err in H. destruct H as [H | (vs & _ & H)].
      { exact (struct_unpack_from_error p _ _ _ _ H eq_refl). }
      apply bind_err in H. destruct H as [H | (sz & _ & H)].
      { exact (calcsize_error p _ _ H eq_refl). }
      exact (IH _ _ _ _ Ha' H).
Qed.

Lemma unpack_fuel_enough (n : nat) :
  forall fmt buff offset count,
  (List.length fmt <= n)%nat ->
  unpack_fuel p n fmt buff offset count <> Err OutOfFuel.
Proof.
  induction n as [|n IH]; intros fmt buff offset count Hn;
    rewrite unpack_fuel_eq; apply walk_no_fuel_error;
    intros afmt o c Hl; cbn [acc_of List.length] in Hl.
  - lia.
  - apply unpack_array_with_no_fuel_error. intros o1. apply IH. lia.
Qed.

Lemma unpack_array_loop_agree
    (unpack unpack' : Z -> Py.result (list value * Z)) (k : nat) :
  forall output offset,
  (forall o, unpack o = unpack' o) ->
  unpack_array_loop unpack k output offset =
  unpack_array_loop unpack' k output offset.
Proof.
  induction k as [|k IH]; intros output offset Hu; cbn; [reflexivity|].
  rewrite Hu. destruct (unpack' offset) as [[item o1]|]; cbn; [|reflexivity].
  apply IH. assumption.
Qed.

Lemma walk_arr_agree
    (arr arr' : list ascii -> list byte -> Z -> Z
                -> Py.result (list value * Z))
    (buff : list byte) (fmt : list ascii) :
  forall items array_fmt offset count,
  (forall afmt o c,
     (List.length afmt < List.length fmt + List.length (acc_of array_fmt))%nat ->
     arr afmt buff o c = arr' afmt buff o c) ->
  walk p arr buff fmt items array_fmt offset count =
  walk p arr' buff fmt items array_fmt offset count.
Proof.
  induction fmt as [|ch fmt IH]; intros items array_fmt offset count Ha;
    cbn [walk]; [reflexivity|].
  destruct array_fmt as [afmt|]; cbn [acc_of List.length] in Ha.
  - destruct (Ascii.eqb ch "]" && _).
    + destruct (Struct.unpack_from p (str "!i") buff offset); [|reflexivity].
      cbn [bind]. destruct (index a 0); [|reflexivity].
      cbn [bind]. destruct (int_val a0); [|reflexivity].
      cbn [bind]. rewrite Ha by lia.
      destruct (arr' afmt buff (offset + 4) a1) as [[ai o1]|]; [|reflexivity].
      cbn [bind]. apply IH.
      intros a' o c Hl. apply Ha. cbn [acc_of List.length] in Hl. lia.
    + apply IH. intros a' o c Hl. apply Ha. cbn [acc_of] in Hl.
      rewrite length_app in Hl. cbn [List.length] in Hl. lia.
  - assert (Ha' : forall a o c,
      (List.length a < List.length fmt + List.length (acc_of None))%nat ->
      arr a buff o c = arr' a buff o c).
    { intros a o c Hl. apply Ha. cbn [acc_of List.length] in Hl. lia. }
    destruct (Ascii.eqb ch "[").
    { apply IH. intros a' o c Hl. apply Ha.
      cbn [acc_of List.length] in Hl. lia. }
    destruct (Ascii.eqb ch "V").
    { destruct (unpack_varint_from buff offset) as [[n u]|]; [|reflexivity].
      cbn [bind]. apply IH, Ha'. }
    destruct (char_in ch (str "SY")).
    { destruct (Struct.unpack_from p _ buff offset); [|reflexivity].
      cbn [bind]. destruct (index a 0); [|reflexivity].
      cbn [bind]. destruct (int_val a0); [|reflexivity].
      cbn [bind]. destruct (Struct.calcsize p _); [|reflexivity].
      cbn [bind]. destruct (a1 =? -1); [apply IH, Ha'|].
      destruct (Struct.unpack_from p _ buff (offset + a2)); [|reflexivity].
      cbn [bind]. destruct (Struct.calcsize p _); [|reflexivity].
      cbn [bind]. apply IH, Ha'. }
    destruct (Struct.unpack_from p _ buff offset); [|reflexivity].
    cbn [bind]. destruct (Struct.calcsize p _); [|reflexivity].
    cbn [bind]. apply IH, Ha'.
Qed.

Lemma unpack_fuel_indep (n : nat) :
  forall m fmt buff offset count,
  (List.length fmt <= n)%nat -> (List.length fmt <= m)%nat ->
  unpack_fuel p n fmt buff offset count =
  unpack_fuel p m fmt buff offset count.
Proof.
  induction n as [|n IH]; intros m fmt buff offset count Hn Hm;
    rewrite (unpack_fuel_eq p _ fmt), (unpack_fuel_eq p m fmt);
    apply walk_arr_agree; intros afmt o c Hl;
    cbn [acc_of List.length] in Hl; [lia|].
  destruct m as [|m]; [lia|].
  unfold unpack_array_with.
  rewrite (unpack_array_loop_agree _
             (fun offset => unpack_fuel p m afmt buff offset 1)).
  - reflexivity.
  - intros o1. apply IH; lia.
Qed.

(** [_unpack] is the walker over [_unpack_array]. *)
Lemma unpack_walk (fmt : list ascii) (buff : list byte) (offset count : Z) :
  _unpack p fmt buff offset count =
  walk p (_unpack_array p) buff fmt [] None offset count.
Proof.
  unfold _unpack. rewrite unpack_fuel_eq.
  apply walk_arr_agree. intros afmt o c Hl. cbn [acc_of List.length] in Hl.
  destruct (List.length fmt) as [|n] eqn:E; [lia|].
  unfold _unpack_array, unpack_array_with.
  rewrite (unpack_array_loop_agree _
             (fun offset => _unpack p afmt buff offset 1)).
  - reflexivity.
  - intros o1. unfold _unpack. apply unpack_fuel_indep; lia.
Qed.

End WalkerFuel.

(** ** Seven bits at a time *)

Lemma land127_mod (v : Z) : Z.land v 127 = v mod 128.
Proof. change 127 with (Z.ones 7). rewrite Z.land_ones by lia. reflexivity. Qed.

Lemma land127_range (v : Z) : 0 <= Z.land v 127 < 128.
Proof. rewrite land127_mod. apply Z.mod_pos_bound. lia. Qed.

Lemma land127_128 (v : Z) : Z.land (Z.land v 127) 128 = 0.
Proof. rewrite <- Z.land_assoc. apply Z.land_0_r. Qed.

Lemma land127_idem (v : Z) : Z.land (Z.land v 127) 127 = Z.land v 127.
Proof. rewrite <- Z.land_assoc. reflexivity. Qed.

Lemma lor128_add (v : Z) : Z.lor (Z.land v 127) 128 = Z.land v 127 + 128.
Proof.
  rewrite <- Z.lxor_lor by apply land127_128.
  symmetry. apply Z.add_nocarry_lxor, land127_128.
Qed.

Lemma lor128_range (v : Z) : 0 <= Z.lor (Z.land v 127) 128 < 256.
Proof. rewrite lor128_add. pose proof (land127_range v). lia. Qed.

Lemma lor128_low (v : Z) : Z.land (Z.lor (Z.land v 127) 128) 127 = Z.land v 127.
Proof.
  rewrite Z.land_lor_distr_l, land127_idem. change (Z.land 128 127) with 0.
  apply Z.lor_0_r.
Qed.

Lemma lor128_high (v : Z) : Z.land (Z.lor (Z.land v 127) 128) 128 = 128.
Proof.
  rewrite Z.land_lor_distr_l, land127_128. reflexivity.
Qed.

Lemma split7 (v : Z) : Z.lor (Z.land v 127) (Z.shiftl (Z.shiftr v 7) 7) = v.
Proof.
  rewrite <- Z.ldiff_ones_r by lia. rewrite Z.lor_comm.
  apply Z.lor_ldiff_and.
Qed.

Lemma shiftr7_div (v : Z) : Z.shiftr v 7 = v / 128.
Proof. rewrite Z.shiftr_div_pow2 by lia. reflexivity. Qed.

Lemma varint_size_pos (v : Z) : 1 <= varint_size v.
Proof. unfold varint_size. lia. Qed.

Lemma varint_size_last (v : Z) :
  0 <= v -> Z.shiftr v 7 = 0 -> varint_size v = 1.
Proof.
  intros Hv H. rewrite shiftr7_div in H.
  assert (Hlt : v < 128) by (apply Z.div_small_iff in H; lia).
  unfold varint_size, bit_length.
  destruct (v =? 0) eqn:E; [reflexivity|].
  apply Z.eqb_neq in E.
  assert (Z.log2 v < 7) by (apply Z.log2_lt_pow2; [lia | simpl; lia]).
  pose proof (Z.log2_nonneg v).
  assert ((Z.log2 v + 1 + 6) / 7 = 1)
    by (symmetry; apply Z.div_unique with (r := Z.log2 v); lia).
  lia.
Qed.

Lemma varint_size_more (v : Z) :
  0 <= v -> Z.shiftr v 7 <> 0 ->
  varint_size v = 1 + varint_size (Z.shiftr v 7).
Proof.
  intros Hv H.
  assert (H128 : 128 <= v).
  { rewrite shiftr7_div in H. destruct (Z_lt_le_dec v 128) as [Hlt|]; [|lia].
    exfalso. apply H. apply Z.div_small. lia. }
  assert (Hpos : 0 < Z.shiftr v 7).
  { rewrite shiftr7_div. apply Z.div_str_pos. lia. }
  assert (Hlog : 7 <= Z.log2 v) by (apply Z.log2_le_pow2; [lia | simpl; lia]).
  unfold varint_size, bit_length.
  rewrite Z.log2_shiftr by lia.
  destruct (v =? 0) eqn:E1; [apply Z.eqb_eq in E1; lia|].
  destruct (Z.shiftr v 7 =? 0) eqn:E2; [apply Z.eqb_eq in E2; lia|].
  rewrite (Z.max_r 0 (Z.log2 v - 7)) by lia.
  replace (Z.log2 v + 1 + 6) with ((Z.log2 v - 7 + 1 + 6) + 1 * 7) by lia.
  rewrite Z.div_add by lia.
  assert (0 <= (Z.log2 v - 7 + 1 + 6) / 7) by (apply Z.div_pos; lia).
  assert (1 <= (Z.log2 v - 7 + 1 + 6) / 7 \/ (Z.log2 v - 7 + 1 + 6) / 7 = 0) by lia.
  destruct H1 as [H1|H1]; [lia|].
  apply Z.div_small_iff in H1; lia.
Qed.

(** ** The bytes of a varint *)

Lemma varint_bytes_loop_length (fuel : nat) :
  forall val, 0 <= val -> varint_size val <= Z.of_nat fuel ->
  len (varint_bytes_loop fuel val) = varint_size val.
Proof.
  induction fuel as [|fuel IH]; intros val Hv Hf.
  - pose proof (varint_size_pos val). lia.
  - cbn [varint_bytes_loop].
    destruct (Z.shiftr val 7 =? 0) eqn:E; cbn [negb].
    + apply Z.eqb_eq in E. rewrite (varint_size_last val Hv E). reflexivity.
    + apply Z.eqb_neq in E.
      rewrite (varint_size_more val Hv E) in Hf |- *.
      unfold len in *. cbn [List.length].
      rewrite Nat2Z.inj_succ, IH; [lia| |lia].
      apply Z.shiftr_nonneg. assumption.
Qed.

Lemma varint_bytes_length (val : Z) :
  0 <= val -> len (varint_bytes val) = varint_size val.
Proof.
  intros Hv. apply varint_bytes_loop_length; [assumption|].
  pose proof (varint_size_pos val). lia.
Qed.

Lemma slice_middle (pre rest : list byte) (b : byte) :
  slice (pre ++ b :: rest) (len pre) (len pre + 1) = [b].
Proof.
  apply slice_one; [apply len_nonneg|].
  unfold len. rewrite Nat2Z.id.
  rewrite nth_error_app2 by lia. rewrite Nat.sub_diag. reflexivity.
Qed.

(** The decoder on the bytes of a varint, wherever they lie. *)
Lemma unpack_varint_loop_bytes (k : nat) :
  forall val fuel pre rest size shift result,
  0 <= val -> 0 <= shift ->
  varint_size val <= Z.of_nat k -> varint_size val <= Z.of_nat fuel ->
  unpack_varint_loop fuel
    (pre ++ bytes_of_list (varint_bytes_loop k val) ++ rest)
    (len pre) size shift result
  = Ok (size + varint_size val, Z.lor result (Z.shiftl val shift)).
Proof.
  induction k as [|k IH];
    intros val fuel pre rest size shift result Hv Hs Hk Hf.
  - pose proof (varint_size_pos val). lia.
  - destruct fuel as [|fuel]; [pose proof (varint_size_pos val); lia|].
    cbn [varint_bytes_loop unpack_varint_loop].
    destruct (Z.shiftr val 7 =? 0) eqn:E; cbn [negb].
    + apply Z.eqb_eq in E.
      unfold bytes_of_list. cbn [map app].
      rewrite slice_middle.
      rewrite ord_byte_of by (pose proof (land127_range val); lia).
      cbn [bind]. rewrite land127_128, land127_idem. cbn.
      rewrite (varint_size_last val Hv E).
      do 3 f_equal. rewrite land127_mod, shiftr7_div in *.
      apply Z.div_small_iff in E; [|lia]. f_equal. apply Z.mod_small. lia.
    + apply Z.eqb_neq in E.
      rewrite (varint_size_more val Hv E) in Hk, Hf |- *.
      unfold bytes_of_list. cbn [map app]. fold (bytes_of_list
        (varint_bytes_loop k (Z.shiftr val 7))).
      rewrite slice_middle.
      rewrite ord_byte_of by apply lor128_range.
      cbn [bind]. rewrite lor128_high, lor128_low. cbn [Z.eqb negb].
      change (pre ++ byte_of (Z.lor (Z.land val 127) 128)
                  :: bytes_of_list (varint_bytes_loop k (Z.shiftr val 7))
                  ++ rest)
        with (pre ++ [byte_of (Z.lor (Z.land val 127) 128)]
                  ++ bytes_of_list (varint_bytes_loop k (Z.shiftr val 7))
                  ++ rest).
      rewrite app_assoc.
      replace (len pre + 1)
        with (len (pre ++ [byte_of (Z.lor (Z.land val 127) 128)]))
        by (rewrite len_app; reflexivity).
      rewrite IH; [| apply Z.shiftr_nonneg; assumption | lia | lia | lia].
      apply f_equal. apply f_equal2; [lia|].
      rewrite <- Z.lor_assoc. f_equal.
      rewrite (Z.add_comm shift 7), <- (Z.shiftl_shiftl _ 7 shift) by lia.
      rewrite <- Z.shiftl_lor, split7. reflexivity.
Qed.

Lemma unpack_varint_bytes (val : Z) (pre rest : list byte) :
  0 <= val ->
  unpack_varint_from (pre ++ bytes_of_list (varint_bytes val) ++ rest)
                     (len pre)
  = Ok (varint_size val, val).
Proof.
  intros Hv. unfold unpack_varint_from, varint_bytes.
  pose proof (varint_size_pos val) as Hp.
  rewrite unpack_varint_loop_bytes; try lia.
  - rewrite Z.shiftl_0_r. reflexivity.
  - rewrite !length_app. unfold bytes_of_list. rewrite length_map.
    pose proof (varint_bytes_length val Hv) as Hl.
    unfold varint_bytes, len in Hl. lia.
Qed.

(** ** The encoder *)

Section Encoder.

Variable p : Struct.platform.

(** [chr] gives a [str], and [struct] takes [bytes] only for the code
    [c]: the first write of the loop raises. *)
Lemma pack_varint_loop_raises (fuel : nat) (buff : list byte)
    (offset val size : Z) :
  pack_varint_loop p (S fuel) buff offset val size = Err StructError.
Proof.
  cbn [pack_varint_loop]. unfold chr.
  destruct (negb (Z.shiftr val 7 =? 0)); rewrite pack_c_str; reflexivity.
Qed.

Lemma pack_varint_into_raises (buff : list byte) (offset val : Z) :
  pack_varint_into p buff offset val = Err StructError.
Proof. apply pack_varint_loop_raises. Qed.

Lemma pack_varint_into_total (buff : list byte) (offset val : Z) :
  pack_varint_into p buff offset val <> Err OutOfFuel.
Proof. rewrite pack_varint_into_raises. discriminate. Qed.

Lemma pack_scalar_error (m : Struct.mode) (little : bool) (c : ascii)
    (sz : Z) (v : value) (e : exn) :
  Struct.pack_scalar m little c sz v = Err e ->
  e = StructError \/ e = OverflowError.
Proof.
  assert (Hd : forall k : Z -> Py.result (list byte),
               bind (Struct.as_double v) k = Err e ->
               (forall x, k x = Err e -> e = StructError \/ e = OverflowError) ->
               e = StructError \/ e = OverflowError).
  { intros k H Hk. apply bind_err in H.
    destruct H as [H | (y & _ & H)]; [|eauto].
    left. unfold Struct.as_double in H.
    destruct v; try congruence.
    destruct (Float.double_of_int _); congruence. }
  assert (Ho : Struct.overflow v = StructError
               \/ Struct.overflow v = OverflowError)
    by (destruct v; cbn; auto).
  assert (Hi : forall k : Z -> Py.result (list byte),
               bind (Struct.as_int v) k = Err e ->
               (forall x, k x = Err e -> e = StructError \/ e = OverflowError) ->
               e = StructError \/ e = OverflowError).
  { intros k H Hk. apply bind_err in H.
    destruct H as [H | (y & _ & H)]; [|eauto].
    left. unfold Struct.as_int in H. destruct v; congruence. }
  assert (Hint : (z <- Struct.as_int v ;;
                  let (lo, hi) := Struct.int_range c sz in
                  if (lo <=? z) && (z <? hi)
                  then Ok (Struct.bytes_of little (Z.to_nat sz)
                             (z mod 2 ^ (8 * sz)))
                  else Err StructError) = Err e ->
                 e = StructError \/ e = OverflowError).
  { intros H. apply (Hi _ H). intros z Hz.
    destruct (Struct.int_range c sz) as [lo hi].
    destruct ((lo <=? z) && (z <? hi)); [discriminate | left; congruence]. }
  unfold Struct.pack_scalar.
  destruct c as [[] [] [] [] [] [] [] []]; try exact Hint; intros H;
    first
      [ discriminate
      | left; destruct v as [| | | |[|b [|]]| | |]; congruence
      | apply (Hd _ H); intros x Hx;
        first
          [ discriminate
          | destruct (_ && _); [|discriminate];
            destruct Ho as [Ho|Ho]; rewrite Ho in Hx;
            [left | right]; congruence
          | destruct m; [discriminate|];
            destruct (_ && _); [|discriminate];
            destruct Ho as [Ho|Ho]; rewrite Ho in Hx;
            [left | right]; congruence ] ].
Qed.

Lemma pack_scalars_error (m : Struct.mode) (little : bool) (c : ascii)
    (sz : Z) (vs : list value) (e : exn) :
  Struct.pack_scalars m little c sz vs = Err e ->
  e = StructError \/ e = OverflowError.
Proof.
  induction vs as [|v vs IH]; cbn [Struct.pack_scalars]; intros H;
    [discriminate|].
  apply bind_err in H. destruct H as [H | (bs & _ & H)].
  - eapply pack_scalar_error. eassumption.
  - apply bind_err in H. destruct H as [H | (rest & _ & H)];
      [auto | discriminate].
Qed.

Lemma pop0_error {A} (l : list A) (e : exn) :
  pop0 l = Err e -> e = IndexError.
Proof. destruct l; cbn; congruence. Qed.

Lemma pop_many_error {A} (n : nat) :
  forall (l : list A) (e : exn), pop_many n l = Err e -> e = IndexError.
Proof.
  induction n as [|n IH]; intros l e H; cbn [pop_many] in H; [discriminate|].
  apply bind_err in H. destruct H as [H | ([x l1] & _ & H)].
  - eapply pop0_error. eassumption.
  - apply bind_err in H. destruct H as [H | ([xs l2] & _ & H)];
      [eauto | discriminate].
Qed.

Lemma pack_item_error (m : Struct.mode) (base : Z) (buff : list byte)
    (it : Z * Z * ascii) (args : list value) (e : exn) :
  Struct.pack_item p m base buff it args = Err e -> e <> OutOfFuel.
Proof.
  assert (Hgen : ('(vs, args) <- pop_many (Z.to_nat (snd (fst it))) args ;;
                  bs <- Struct.pack_scalars m (Struct.mode_little p m)
                          (snd it) (Struct.item_size p m (snd it)) vs ;;
                  Ok (Struct.write_at buff (base + fst (fst it)) bs, args))
                 = Err e -> e <> OutOfFuel).
  { intros H. apply bind_err in H. destruct H as [H | ([vs a] & _ & H)].
    - apply pop_many_error in H. congruence.
    - apply bind_err in H. destruct H as [H | (bs & _ & H)]; [|discriminate].
      apply pack_scalars_error in H. destruct H; congruence. }
  assert (Hstr : forall k : value * list value -> Py.result (list byte * list value),
            (forall x, k x = Err e -> e = StructError) ->
            bind (pop0 args) k = Err e -> e <> OutOfFuel).
  { intros k Hk H. apply bind_err in H. destruct H as [H | (x & _ & H)].
    - apply pop0_error in H. congruence.
    - apply Hk in H. congruence. }
  destruct it as [[start n] c]. cbn [fst snd] in Hgen.
  unfold Struct.pack_item.
  destruct c as [[] [] [] [] [] [] [] []]; try exact Hgen;
    first
      [ discriminate
      | apply Hstr; intros [v a] H; destruct v; congruence ].
Qed.

Lemma pack_items_error (m : Struct.mode) (base : Z)
    (its : list (Z * Z * ascii)) :
  forall (buff : list byte) (args : list value) (e : exn),
  Struct.pack_items p m base buff its args = Err e -> e <> OutOfFuel.
Proof.
  induction its as [|it its IH]; intros buff args e H;
    cbn [Struct.pack_items] in H; [discriminate|].
  apply bind_err in H. destruct H as [H | ([b a] & _ & H)].
  - eapply pack_item_error. eassumption.
  - eapply IH. eassumption.
Qed.

(** [struct.pack_into] raises an exception of Python's or returns. *)
Lemma struct_pack_into_error (fmt : list ascii) (buff : list byte)
    (offset : Z) (args : list value) (e : exn) :
  Struct.pack_into p fmt buff offset args = Err e -> e <> OutOfFuel.
Proof.
  unfold Struct.pack_into. intros H.
  apply bind_err in H. destruct H as [H | ([[[m items] its] size] & _ & H)].
  - apply (compile_error p fmt e) in H. destruct H; congruence.
  - destruct (negb _); [congruence|].
    apply bind_err in H. destruct H as [H | (off & _ & H)].
    + apply resolve_offset_err in H. congruence.
    + eapply pack_items_error. eassumption.
Qed.

(** One [int] packed with the code [i], with or without [!]: it is
    written, or the buffer has no room for it. *)
Lemma pack_one_int (fmt : list ascii) (buff : list byte) (offset v : Z) :
  fmt = str "i" \/ fmt = str "!i" ->
  - 2 ^ 31 <= v < 2 ^ 31 ->
  (exists buff', Struct.pack_into p fmt buff offset [VInt v] = Ok buff')
  \/ Struct.pack_into p fmt buff offset [VInt v] = Err StructError.
Proof.
  intros Hf Hv. unfold Struct.pack_into.
  assert (Hc : exists m, Struct.compile p fmt
                         = Ok (m, [(1, "i"%char)], [(0, 1, "i"%char)], 4)).
  { destruct Hf as [-> | ->]; eexists;
      destruct p as [le l8 [] a8]; reflexivity. }
  destruct Hc as (m & ->). cbn [bind].
  change (negb (len [VInt v] =? Struct.nargs [(1, "i"%char)])) with false.
  cbv iota.
  destruct (Struct.resolve_offset (len buff) offset 4) as [off|e] eqn:E;
    cbn [bind].
  - left. cbn [Struct.pack_items Struct.pack_item].
    change (Z.to_nat 1) with 1%nat. cbn [pop_many pop0 bind].
    replace (Struct.item_size p m "i") with 4 by (destruct m; reflexivity).
    cbn [Struct.pack_scalars Struct.pack_scalar Struct.as_int bind].
    change (Struct.int_range "i" 4) with (- 2 ^ 31, 2 ^ 31).
    cbv iota beta.
    rewrite (proj2 (Z.leb_le _ _) (proj1 Hv)),
            (proj2 (Z.ltb_lt _ _) (proj2 Hv)).
    cbn [andb bind]. eauto.
  - right. apply resolve_offset_err in E. subst e. reflexivity.
Qed.

End Encoder.

(** ** Encoding *)

Lemma str_eqb_eq (a b : list ascii) : str_eqb a b = true <-> a = b.
Proof.
  unfold str_eqb. destruct (list_eq_dec ascii_dec a b); split;
    intros; congruence.
Qed.

(** A format that holds a [V] has a part that is ["V"]. *)
Lemma parts_varint (fmt : list ascii) :
  char_in "V" fmt = true -> In (str "V") (parts fmt).
Proof.
  unfold parts. generalize (@nil ascii) as cur.
  induction fmt as [|c fmt IH]; intros cur H; [discriminate|].
  unfold char_in in H. cbn [existsb] in H. fold (char_in "V" fmt) in H.
  cbn [re_split_V]. rewrite (Ascii.eqb_sym c "V").
  destruct (Ascii.eqb "V" c) eqn:E.
  - apply Ascii.eqb_eq in E. subst c.
    apply filter_In. split; [|reflexivity].
    right. left. reflexivity.
  - cbn [orb] in H. apply IH. assumption.
Qed.

Section Parts.

Variable p : Struct.platform.

(** Once a part is ["V"], the loop of [pack_into] ends in an exception. *)
Lemma pack_parts_varint (fmt : list ascii) (ps : list (list ascii)) :
  forall i buff offset args size,
  In (str "V") ps ->
  exists e, pack_parts p fmt ps i buff offset args size = Err e
            /\ e <> OutOfFuel.
Proof.
  induction ps as [|fmt_part ps IH]; intros i buff offset args size Hin;
    [contradiction|].
  cbn [pack_parts].
  destruct (str_eqb fmt_part (str "V")) eqn:E; cbn [negb].
  - destruct (pop0 args) as [[v args']|e] eqn:Ep; cbn [bind].
    + destruct (int_val v) as [val|e] eqn:Ev; cbn [bind].
      * rewrite pack_varint_into_raises. cbn [bind].
        exists StructError. split; [reflexivity | discriminate].
      * exists e. split; [reflexivity|].
        apply int_val_error in Ev. congruence.
    + exists e. split; [reflexivity|].
      apply pop0_error in Ep. congruence.
  - assert (Hin' : In (str "V") ps).
    { destruct Hin as [Hin|Hin]; [|assumption].
      apply str_eqb_eq in Hin. congruence. }
    destruct (pop_many _ args) as [[part_args args']|e] eqn:Ep; cbn [bind].
    + destruct (Struct.pack_into p _ buff offset part_args) as [b|e] eqn:Es;
        cbn [bind].
      * destruct (Struct.calcsize p _) as [sz|e] eqn:Ec; cbn [bind].
        -- apply IH. assumption.
        -- exists e. split; [reflexivity|].
           eapply calcsize_error. eassumption.
      * exists e. split; [reflexivity|].
        eapply struct_pack_into_error. eassumption.
    + exists e. split; [reflexivity|].
      apply pop_many_error in Ep. congruence.
Qed.

End Parts.

Section Claims.

Variable p : Struct.platform.

(** C1 (the code departs from it).  When the format holds no [V],
    [pack_into] hands the call to [struct.pack_into] and returns what
    that returns, which is [None], not the number of bytes written. *)
Theorem pack_into_fast_path_returns_None (fmt : list ascii)
    (buff : list byte) (offset : Z) (args : list value)
    (buff' : list byte) (v : value) :
  char_in "V" fmt = false ->
  pack_into p fmt buff offset args = Ok (buff', v) ->
  v = VNone /\ Struct.pack_into p fmt buff offset args = Ok buff'.
Proof.
  intros HV H. unfold pack_into in H. rewrite HV in H.
  bind_inv H b Hb. inversion H; subst. split; [reflexivity | assumption].
Qed.

(** C2 (the code departs from it).  The pad code [x] is among the
    characters the varint path counts as taking an argument, while
    [struct] takes none for it: a run with a pad gets one argument too
    many, and packing ["xV"] raises [struct.error] whatever the buffer. *)
Theorem pack_into_counts_pad_as_argument :
  (forall fmt_part,
     List.length (args_only_fmt ("x"%char :: fmt_part))
     = S (List.length (args_only_fmt fmt_part))) /\
  struct_nargs p (str "x") = Ok 0 /\
  (forall buff offset v args,
     pack_into p (str "xV") buff offset (v :: args) = Err StructError).
Proof.
  split; [reflexivity|]. split.
  - destruct p as [[] [] [] []]; reflexivity.
  - intros buff offset v args.
    unfold pack_into.
    change (char_in "V" (str "xV")) with true. cbv iota.
    change (parts (str "xV")) with [str "x"; str "V"].
    cbn [pack_parts]. change (str_eqb (str "x") (str "V")) with false.
    cbn [negb]. change (List.length (args_only_fmt (str "x"))) with 1%nat.
    cbn [pop_many pop0 bind].
    change (prefixed (str "xV") 0 (str "x")) with (str "x").
    replace (Struct.pack_into p (str "x") buff offset [v])
      with (@Err (list byte) StructError); [reflexivity|].
    unfold Struct.pack_into.
    destruct p as [[] [] [] []]; reflexivity.
Qed.

(** C3 (the code departs from it).  Packing 1, 300 and 2 with ["iVi"],
    and with ["!iVi"], raises [struct.error] whatever the buffer and
    the offset: the varint is written through [chr], whose [str]
    [struct] refuses for the code [c], so no size is returned.  The
    run before the varint is packed as its own text says: without a
    marker in the byte order of the machine, the low byte first on
    x86-64; with [!] in network order. *)
Theorem pack_into_mixed_varint_raises (buff : list byte) (offset : Z) :
  pack_into p (str "iVi") buff offset [VInt 1; VInt 300; VInt 2]
  = Err StructError /\
  pack_into p (str "!iVi") buff offset [VInt 1; VInt 300; VInt 2]
  = Err StructError /\
  Struct.pack_into Struct.x86_64 (prefixed (str "iVi") 0 (str "i"))
    (zero_buffer 10) 0 [VInt 1]
  = Ok (bytes_of_list [1;0;0;0; 0;0; 0;0;0;0]) /\
  Struct.pack_into p (prefixed (str "!iVi") 0 (str "!i"))
    (zero_buffer 10) 0 [VInt 1]
  = Ok (bytes_of_list [0;0;0;1; 0;0; 0;0;0;0]).
Proof.
  assert (Hrun : forall fmt part,
            prefixed fmt 0 part = str "i" \/ prefixed fmt 0 part = str "!i" ->
            List.length (args_only_fmt part) = 1%nat ->
            pack_parts p fmt [part; str "V"; str "i"] 0 buff offset
              [VInt 1; VInt 300; VInt 2] 0 = Err StructError).
  { intros fmt part Hf Ha.
    assert (Hc : Struct.calcsize p (prefixed fmt 0 part) = Ok 4).
    { destruct Hf as [-> | ->]; destruct p as [le l8 [] a8]; reflexivity. }
    assert (Hp : str_eqb part (str "V") = false).
    { destruct (str_eqb part (str "V")) eqn:E; [|reflexivity].
      apply str_eqb_eq in E. subst part. discriminate. }
    cbn [pack_parts]. rewrite Hp, Ha. cbn [negb pop_many pop0 bind].
    destruct (pack_one_int p _ buff offset 1 Hf ltac:(lia))
      as [(b & ->) | ->]; [|reflexivity].
    cbn [bind]. rewrite Hc. cbn [bind].
    change (str_eqb (str "V") (str "V")) with true.
    cbn [negb pop0 bind int_val].
    rewrite pack_varint_into_raises. reflexivity. }
  split; [|split; [|split]].
  - unfold pack_into.
    change (char_in "V" (str "iVi")) with true. cbv iota.
    change (parts (str "iVi")) with [str "i"; str "V"; str "i"].
    rewrite Hrun; [reflexivity | left; reflexivity | reflexivity].
  - unfold pack_into.
    change (char_in "V" (str "!iVi")) with true. cbv iota.
    change (parts (str "!iVi")) with [str "!i"; str "V"; str "i"].
    rewrite Hrun; [reflexivity | right; reflexivity | reflexivity].
  - vm_compute. reflexivity.
  - destruct p as [[] [] [] []]; vm_compute; reflexivity.
Qed.

(** C4 (the code departs from it).  For each of the seven values
    [pack_varint_into] raises [struct.error], whatever the buffer, so
    nothing is there to decode.  [unpack_varint_from], given the bytes
    the encoder hands to [chr], does return their number and the
    value; for zero that is the one byte zero. *)
Theorem varint_round_trip_raises (buff : list byte) (v : Z) :
  In v round_trip_values ->
  pack_varint_into p buff 0 v = Err StructError /\
  unpack_varint_from (bytes_of_list (varint_bytes v)) 0
  = Ok (len (varint_bytes v), v) /\
  (v = 0 -> varint_bytes v = [0]).
Proof.
  intros Hin.
  assert (Hv : 0 <= v).
  { cbn [round_trip_values In] in Hin.
    repeat (destruct Hin as [<-|Hin]; [lia|]). contradiction. }
  split; [apply pack_varint_into_raises|]. split.
  - pose proof (unpack_varint_bytes v [] [] Hv) as H.
    cbn [app] in H. rewrite app_nil_r in H.
    rewrite varint_bytes_length by assumption. exact H.
  - intros ->. reflexivity.
Qed.

(** C8 (the code departs from it).  For a value that is not negative
    the loop of [pack_varint_into] has [max(1, ceil(bit_length / 7))]
    bytes to write, but the call never returns that number: the first
    write raises [struct.error]. *)
Theorem pack_varint_into_nonnegative_raises (buff : list byte)
    (offset val : Z) :
  0 <= val ->
  pack_varint_into p buff offset val = Err StructError /\
  len (varint_bytes val) = varint_size val.
Proof.
  intros Hv. split; [apply pack_varint_into_raises|].
  apply varint_bytes_length. assumption.
Qed.

(** C9.  The cursor never moves back: the offset [_unpack] and
    [_unpack_array] return is not less than the one they start from,
    and [unpack_varint_from] consumes one byte at least. *)
Theorem decode_cursor_monotone (fmt : list ascii) (buff : list byte)
    (offset count : Z) :
  (forall items e,
     _unpack p fmt buff offset count = Ok (items, e) -> offset <= e) /\
  (forall output e,
     _unpack_array p fmt buff offset count = Ok (output, e) -> offset <= e) /\
  (forall n r, unpack_varint_from buff offset = Ok (n, r) -> 1 <= n).
Proof.
  split; [|split].
  - intros items e H. eapply unpack_fuel_monotone. exact H.
  - intros output e H. eapply unpack_array_with_monotone; [|exact H].
    intros o r e0 H0. eapply unpack_fuel_monotone. exact H0.
  - intros n r H. apply unpack_varint_from_ok in H. tauto.
Qed.

(** C10.  A format that is empty or made of spaces only raises
    [IndexError]: nothing is left when [fmt[0]] is looked at. *)
Theorem unpack_from_blank_format (fmt : list ascii) (buff : list byte)
    (offset : Z) :
  Forall (fun c => c = " "%char) fmt ->
  unpack_from p fmt buff offset = Err IndexError.
Proof.
  intros HF. unfold unpack_from, normalize.
  replace (remove_char " " fmt) with (@nil ascii); [reflexivity|].
  induction HF as [|c l Hc _ IH]; [reflexivity|].
  subst c. cbn. assumption.
Qed.

End Claims.

Lemma pack_into_fast_path_returns_None_witness :
  char_in "V" (str "!i") = false /\
  pack_into Struct.x86_64 (str "!i") (zero_buffer 4) 0 [VInt 1]
  = Ok (bytes_of_list [0;0;0;1], VNone) /\
  VNone = VNone /\
  Struct.pack_into Struct.x86_64 (str "!i") (zero_buffer 4) 0 [VInt 1]
  = Ok (bytes_of_list [0;0;0;1]).
Proof.
  split; [reflexivity|]. split; [reflexivity|].
  apply (pack_into_fast_path_returns_None Struct.x86_64 (str "!i")
           (zero_buffer 4) 0 [VInt 1]); reflexivity.
Defined.

Lemma varint_round_trip_raises_witness :
  In 300 round_trip_values /\
  pack_varint_into Struct.x86_64 (zero_buffer 9) 0 300 = Err StructError /\
  unpack_varint_from (bytes_of_list (varint_bytes 300)) 0
  = Ok (len (varint_bytes 300), 300) /\
  (300 = 0 -> varint_bytes 300 = [0]).
Proof.
  assert (H : In 300 round_trip_values) by (simpl; tauto).
  split; [exact H|].
  exact (varint_round_trip_raises Struct.x86_64 (zero_buffer 9) 300 H).
Defined.

Lemma pack_varint_into_nonnegative_raises_witness :
  0 <= 300 /\
  pack_varint_into Struct.x86_64 (zero_buffer 4) 0 300 = Err StructError /\
  len (varint_bytes 300) = varint_size 300.
Proof.
  assert (H : 0 <= 300) by lia.
  split; [exact H|].
  exact (pack_varint_into_nonnegative_raises Struct.x86_64 (zero_buffer 4)
           0 300 H).
Defined.

Lemma decode_cursor_monotone_witness :
  _unpack Struct.x86_64 (str "[i]") array_example 0 1
  = Ok ([VList [VInt 1; VInt 2; VInt 3]], 16) /\ 0 <= 16.
Proof.
  split; [reflexivity|].
  apply (proj1 (decode_cursor_monotone Struct.x86_64 (str "[i]")
                  array_example 0 1) [VList [VInt 1; VInt 2; VInt 3]] 16).
  reflexivity.
Defined.

Lemma unpack_from_blank_format_witness :
  Forall (fun c => c = " "%char) (str "  ") /\
  unpack_from Struct.x86_64 (str "  ") [] 0 = Err IndexError.
Proof.
  assert (H : Forall (fun c => c = " "%char) (str "  "))
    by (repeat constructor).
  split; [exact H|].
  exact (unpack_from_blank_format Struct.x86_64 (str "  ") [] 0 H).
Defined.

(** ** Length prefixes and arrays *)

Lemma len_bytes_at (buff : list byte) (off n : Z) :
  0 <= off -> 0 <= n -> off + n <= len buff ->
  len (Struct.bytes_at buff off n) = n.
Proof.
  intros Ho Hn Hl. unfold Struct.bytes_at, len in *.
  rewrite length_firstn, length_skipn. lia.
Qed.

Lemma count_app (a b : list ascii) (c : ascii) :
  Py.count (a ++ b) c = (Py.count a c + Py.count b c)%nat.
Proof. unfold Py.count. rewrite filter_app, length_app. reflexivity. Qed.

Lemma byte_val_range (b : byte) : 0 <= Struct.byte_val b < 256.
Proof.
  unfold Struct.byte_val. pose proof (Byte.to_N_bounded b). lia.
Qed.

Lemma be_uint_fold_bound (bs : list byte) :
  forall acc, 0 <= acc ->
  0 <= fold_left (fun a b => a * 256 + Struct.byte_val b) bs acc
    < (acc + 1) * 256 ^ len bs.
Proof.
  induction bs as [|b bs IH]; intros acc Ha.
  - cbn. lia.
  - cbn [fold_left]. pose proof (byte_val_range b) as Hb.
    specialize (IH (acc * 256 + Struct.byte_val b) ltac:(lia)).
    replace (len (b :: bs)) with (len bs + 1)
      by (unfold len; cbn [List.length]; lia).
    rewrite Z.pow_add_r by (try apply len_nonneg; lia).
    change (256 ^ 1) with 256.
    assert (0 < 256 ^ len bs) by (apply Z.pow_pos_nonneg; [lia | apply len_nonneg]).
    nia.
Qed.

Lemma be_uint_bound (bs : list byte) : 0 <= Struct.be_uint bs < 256 ^ len bs.
Proof.
  pose proof (be_uint_fold_bound bs 0 (Z.le_refl 0)) as H.
  unfold Struct.be_uint. lia.
Qed.

(** A length prefix of two or four bytes is a length [struct] takes. *)
Lemma prefix_value_bound (buff : list byte) (offset prefix : Z) :
  0 <= offset -> prefix = 2 \/ prefix = 4 -> offset + prefix <= len buff ->
  Struct.to_signed (8 * prefix)
    (Struct.be_uint (Struct.bytes_at buff offset prefix)) < 2 ^ 31.
Proof.
  intros Ho Hp Hl.
  pose proof (be_uint_bound (Struct.bytes_at buff offset prefix)) as Hb.
  rewrite len_bytes_at in Hb by lia.
  unfold Struct.to_signed.
  destruct Hp as [-> | ->];
    change (8 * 2 - 1) with 15; change (8 * 4 - 1) with 31;
    change (8 * 2) with 16; change (8 * 4) with 32;
    change (256 ^ 2) with (2 ^ 16) in Hb; change (256 ^ 4) with (2 ^ 32) in Hb;
    match goal with |- context [?a <? ?b] => destruct (Z.ltb_spec a b) end;
    lia.
Qed.

Section Prefix.

Variable p : Struct.platform.

(** One integer of [size] bytes read in network order. *)
Lemma unpack_std_int (c : ascii) (size : Z) (buff : list byte) (offset : Z) :
  (c = "h"%char /\ size = 2) \/ (c = "i"%char /\ size = 4)
  \/ (c = "l"%char /\ size = 4) ->
  0 <= offset -> offset + size <= len buff ->
  Struct.unpack_from p ["!"%char; c] buff offset
  = Ok [VInt (Struct.to_signed (8 * size)
                (Struct.be_uint (Struct.bytes_at buff offset size)))].
Proof.
  intros Hc Ho Hl. unfold Struct.unpack_from.
  assert (Hcomp : Struct.compile p ["!"%char; c]
                  = Ok (Struct.Standard false, [(1, c)], [(0, 1, c)], size)).
  { destruct Hc as [(-> & ->) | [(-> & ->) | (-> & ->)]];
      destruct p as [le l8 [] a8]; reflexivity. }
  rewrite Hcomp. cbn [bind].
  rewrite resolve_offset_nonneg by assumption. cbn [bind].
  set (data := Struct.bytes_at buff offset size).
  assert (Hitems :
    Struct.unpack_items p (Struct.Standard false) data [(0, 1, c)]
    = Ok [VInt (Struct.to_signed (8 * len (Struct.bytes_at data 0 size))
                  (Struct.be_uint (Struct.bytes_at data 0 size)))]).
  { destruct Hc as [(-> & ->) | [(-> & ->) | (-> & ->)]]; reflexivity. }
  rewrite Hitems. subst data. rewrite bytes_at_nested.
  assert (0 <= size) by (destruct Hc as [(_ & ->) | [(_ & ->) | (_ & ->)]]; lia).
  rewrite len_bytes_at by lia. reflexivity.
Qed.

Lemma unpack_int16 (buff : list byte) (offset : Z) :
  0 <= offset -> offset + 2 <= len buff ->
  Struct.unpack_from p (str "!h") buff offset
  = Ok [VInt (Struct.to_signed 16
                (Struct.be_uint (Struct.bytes_at buff offset 2)))].
Proof. intros Ho Hl. apply (unpack_std_int "h" 2); auto. Qed.

Lemma unpack_int32 (buff : list byte) (offset : Z) :
  0 <= offset -> offset + 4 <= len buff ->
  Struct.unpack_from p (str "!i") buff offset
  = Ok [VInt (Struct.to_signed 32
                (Struct.be_uint (Struct.bytes_at buff offset 4)))].
Proof. intros Ho Hl. apply (unpack_std_int "i" 4); auto. Qed.

(** The characters of a nested array are collected up to the bracket
    that closes it. *)
Lemma walk_collect
    (arr : list ascii -> list byte -> Z -> Z -> Py.result (list value * Z))
    (buff : list byte) (rest : list ascii) (items : list value)
    (offset count : Z) (s : list ascii) :
  forall acc d,
  well_nested s d = true ->
  Py.count acc "[" = (Py.count acc "]" + d)%nat ->
  walk p arr buff (s ++ "]"%char :: rest) items (Some acc) offset count =
  walk p arr buff ("]"%char :: rest) items (Some (acc ++ s)) offset count /\
  Py.count (acc ++ s) "[" = Py.count (acc ++ s) "]".
Proof.
  induction s as [|c s IH]; intros acc d Hw Hc; cbn [well_nested] in Hw.
  - apply Nat.eqb_eq in Hw. subst d. rewrite app_nil_r.
    split; [reflexivity | lia].
  - cbn [app].
    assert (Hstep : forall d',
      well_nested s d' = true ->
      Py.count (acc ++ [c]) "[" = (Py.count (acc ++ [c]) "]" + d')%nat ->
      (Ascii.eqb c "]" && Nat.eqb (Py.count acc "[") (Py.count acc "]"))
        = false ->
      walk p arr buff (c :: s ++ "]"%char :: rest) items (Some acc) offset count
      = walk p arr buff ("]"%char :: rest) items (Some (acc ++ c :: s))
          offset count /\
      Py.count (acc ++ c :: s) "[" = Py.count (acc ++ c :: s) "]").
    { intros d' Hw' Hc' Hcond. cbn [walk]. rewrite Hcond.
      replace (acc ++ c :: s) with ((acc ++ [c]) ++ s)
        by (rewrite <- app_assoc; reflexivity).
      apply (IH _ d'); assumption. }
    destruct (Ascii.eqb c "[") eqn:E1.
    + apply Ascii.eqb_eq in E1. subst c. apply (Hstep (S d)).
      * assumption.
      * rewrite !count_app. cbn. lia.
      * reflexivity.
    + destruct (Ascii.eqb c "]") eqn:E2.
      * apply Ascii.eqb_eq in E2. subst c. destruct d as [|d]; [discriminate|].
        apply (Hstep d).
        -- assumption.
        -- rewrite !count_app. cbn. lia.
        -- cbn [andb]. apply Nat.eqb_neq. lia.
      * apply (Hstep d).
        -- assumption.
        -- rewrite !count_app. unfold Py.count at 2 4. cbn [filter].
           rewrite (Ascii.eqb_sym "[" c), (Ascii.eqb_sym "]" c), E1, E2.
           cbn. lia.
        -- reflexivity.
Qed.

Lemma walk_array
    (arr : list ascii -> list byte -> Z -> Z -> Py.result (list value * Z))
    (buff : list byte) (inner rest : list ascii) (items : list value)
    (offset count : Z) :
  well_nested inner 0 = true ->
  walk p arr buff ("["%char :: inner ++ "]"%char :: rest) items None
       offset count =
  (vs <- Struct.unpack_from p (str "!i") buff offset ;;
   v <- index vs 0 ;;
   cnt <- int_val v ;;
   '(array_item, o1) <- arr inner buff (offset + 4) cnt ;;
   walk p arr buff rest (items ++ [VList array_item]) None o1 cnt).
Proof.
  intros Hw. cbn [walk]. change (Ascii.eqb "[" "[") with true. cbv iota.
  destruct (walk_collect arr buff rest items offset count inner [] 0
              Hw eq_refl) as (Hwalk & Hcount).
  rewrite Hwalk. cbn [app] in Hcount |- *. cbn [walk].
  change (Ascii.eqb "]" "]") with true. rewrite Hcount, Nat.eqb_refl.
  reflexivity.
Qed.

(** One turn of the loop for a character handed to [struct]. *)
Lemma walk_code
    (arr : list ascii -> list byte -> Z -> Z -> Py.result (list value * Z))
    (buff : list byte) (ch : ascii) (fmt' : list ascii)
    (items : list value) (offset count : Z) :
  char_in ch (str "[VSY") = false ->
  walk p arr buff (ch :: fmt') items None offset count =
  (vs <- Struct.unpack_from p ["!"%char; ch] buff offset ;;
   sz <- Struct.calcsize p [ch] ;;
   walk p arr buff fmt' (items ++ vs) None (offset + sz) count).
Proof.
  intros H. unfold char_in in H.
  cbn [str list_ascii_of_string existsb] in H.
  apply orb_false_elim in H. destruct H as (E1 & H).
  apply orb_false_elim in H. destruct H as (E2 & H).
  cbn [walk]. rewrite E1, E2.
  change (char_in ch (str "SY") = false) in H. rewrite H. reflexivity.
Qed.

End Prefix.

Lemma in_SY (ch : ascii) :
  char_in ch (str "SY") = true -> ch = "S"%char \/ ch = "Y"%char.
Proof.
  cbn. intros H. apply orb_true_iff in H. destruct H as [H|H].
  - left. apply Ascii.eqb_eq. assumption.
  - rewrite orb_false_r in H. right. apply Ascii.eqb_eq. assumption.
Qed.

Section DecodeClaims.

Variable p : Struct.platform.

Lemma unpack_from_error (fmt : list ascii) (buff : list byte) (offset : Z) :
  unpack_from p fmt buff offset <> Err OutOfFuel.
Proof.
  intros H. unfold unpack_from in H.
  apply bind_err in H. destruct H as [H | (f & Hf & H)].
  { unfold normalize in H.
    apply bind_err in H. destruct H as [H | (c & _ & H)].
    - apply index_error in H. discriminate.
    - discriminate. }
  apply bind_err in H. destruct H as [H | ([output e] & _ & H)].
  { unfold _unpack in H. revert H. apply unpack_fuel_enough. lia. }
  apply bind_err in H. destruct H as [H | (c & _ & H)].
  { apply index_error in H. discriminate. }
  destruct (Ascii.eqb c "[" && _).
  - apply index_error in H. discriminate.
  - discriminate.
Qed.

(** C5 (the code departs from it).  [unpack_from] looks at the first
    character of the format only.  A result of one item is replaced
    by that item when the normalized format starts with [[], and a
    tuple is returned in every other case.  So a format that is one
    array from end to end gives the array, a list: ["[i]"] over the
    count 3 and the big-endian 1, 2, 3 gives [[1, 2, 3]].  But
    ["[i]x"], an array and a pad byte, which is not one array, is
    unwrapped just the same. *)
Theorem unpack_from_unwrap_rule (fmt f inner : list ascii)
    (buff : list byte) (offset : Z) :
  normalize fmt = Ok f ->
  (forall output e rest v,
     _unpack p f buff offset 1 = Ok (output, e) ->
     f = "["%char :: rest -> output = [v] ->
     unpack_from p fmt buff offset = Ok v) /\
  (forall output e c rest,
     _unpack p f buff offset 1 = Ok (output, e) ->
     f = c :: rest -> c <> "["%char \/ List.length output <> 1%nat ->
     unpack_from p fmt buff offset = Ok (VTuple output)) /\
  (f = "["%char :: inner ++ ["]"%char] -> well_nested inner 0 = true ->
   unpack_from p fmt buff offset =
     (vs <- Struct.unpack_from p (str "!i") buff offset ;;
      v <- index vs 0 ;;
      count <- int_val v ;;
      '(array_item, _) <- _unpack_array p inner buff (offset + 4) count ;;
      Ok (VList array_item))) /\
  unpack_from p (str "[i]") array_example 0
  = Ok (VList [VInt 1; VInt 2; VInt 3]) /\
  unpack_from p (str "[i]x") (bytes_of_list [0;0;0;1; 0;0;0;7; 0]) 0
  = Ok (VList [VInt 7]).
Proof.
  intros Hn. split; [|split; [|split; [|split]]].
  - intros output e rest v Hu -> ->.
    unfold unpack_from. rewrite Hn. cbn [bind]. rewrite Hu. reflexivity.
  - intros output e c rest Hu -> Hc.
    unfold unpack_from. rewrite Hn. cbn [bind]. rewrite Hu.
    cbn [bind index nth_error].
    destruct Hc as [Hc|Hc].
    + rewrite (proj2 (Ascii.eqb_neq c "[") Hc). reflexivity.
    + rewrite (proj2 (Nat.eqb_neq _ _) Hc), andb_false_r. reflexivity.
  - intros -> Hw.
    unfold unpack_from. rewrite Hn. cbn [bind].
    rewrite unpack_walk, (walk_array p _ _ _ _ _ _ _ Hw).
    destruct (Struct.unpack_from p (str "!i") buff offset) as [vs|];
      [|reflexivity].
    cbn [bind]. destruct (index vs 0) as [v|]; [|reflexivity].
    cbn [bind]. destruct (int_val v) as [cnt|]; [|reflexivity].
    cbn [bind].
    destruct (_unpack_array p inner buff (offset + 4) cnt) as [[ai o1]|];
      [|reflexivity].
    cbn [bind app walk]. reflexivity.
  - destruct p as [[] [] [] []]; vm_compute; reflexivity.
  - destruct p as [[] [] [] []]; vm_compute; reflexivity.
Qed.


(** C7 (the code departs from it).  With the offset -4 the format
    ["ii"] is decoded from a buffer of four bytes, whatever they are:
    the first read counts from the end of the buffer, the cursor comes
    to 0, and the second read takes the same four bytes again.
    [struct.unpack_from] itself, asked for the eight bytes of ["!ii"]
    with the same buffer and offset, raises [struct.error]. *)
Theorem unpack_from_negative_offset (b0 b1 b2 b3 : byte) :
  let n := Struct.to_signed 32 (Struct.be_uint [b0; b1; b2; b3]) in
  unpack_from p (str "ii") [b0; b1; b2; b3] (-4)
  = Ok (VTuple [VInt n; VInt n]) /\
  Struct.unpack_from p (str "!ii") [b0; b1; b2; b3] (-4) = Err StructError.
Proof.
  intros n. split.
  - assert (Hi : forall offset, offset = -4 \/ offset = 0 ->
              Struct.unpack_from p ["!"%char; "i"%char] [b0; b1; b2; b3] offset
              = Ok [VInt n]).
    { intros offset Ho. unfold Struct.unpack_from.
      replace (Struct.compile p ["!"%char; "i"%char])
        with (@Ok (Struct.mode * list (Z * ascii) * list (Z * Z * ascii) * Z)
                  (Struct.Standard false, [(1, "i"%char)],
                   [(0, 1, "i"%char)], 4))
        by (destruct p as [le l8 [] a8]; reflexivity).
      cbn [bind].
      replace (Struct.resolve_offset (len [b0; b1; b2; b3]) offset 4)
        with (@Ok Z 0) by (destruct Ho as [-> | ->]; reflexivity).
      reflexivity. }
    assert (Hs : Struct.calcsize p ["i"%char] = Ok 4)
      by (destruct p as [le l8 [] a8]; reflexivity).
    unfold unpack_from.
    change (normalize (str "ii")) with (@Ok (list ascii) (str "ii")).
    cbn [bind]. rewrite unpack_walk.
    change (str "ii") with ["i"%char; "i"%char].
    rewrite walk_code by reflexivity.
    rewrite (Hi (-4)) by auto. cbn [bind]. rewrite Hs. cbn [bind].
    change (-4 + 4) with 0. rewrite walk_code by reflexivity.
    rewrite (Hi 0) by auto. cbn [bind]. rewrite Hs. cbn [bind walk].
    reflexivity.
  - destruct p as [[] [] [] []]; reflexivity.
Qed.

End DecodeClaims.

Lemma unpack_from_unwrap_rule_witness :
  normalize (str "!i") = Ok (str "i") /\
  _unpack Struct.x86_64 (str "i") (bytes_of_list [0;0;0;5]) 0 1
  = Ok ([VInt 5], 4) /\
  unpack_from Struct.x86_64 (str "!i") (bytes_of_list [0;0;0;5]) 0
  = Ok (VTuple [VInt 5]).
Proof.
  assert (H1 : normalize (str "!i") = Ok (str "i")) by reflexivity.
  assert (H2 : _unpack Struct.x86_64 (str "i") (bytes_of_list [0;0;0;5]) 0 1
               = Ok ([VInt 5], 4)) by reflexivity.
  split; [exact H1|]. split; [exact H2|].
  apply (proj1 (proj2 (unpack_from_unwrap_rule Struct.x86_64 (str "!i")
                         (str "i") [] (bytes_of_list [0;0;0;5]) 0 H1))
           [VInt 5] 4 "i"%char [] H2 eq_refl).
  left. discriminate.
Defined.


(** * Further properties of the codec *)

(** ** Varints *)

Lemma skipn_nth {A} (l : list A) :
  forall n a, nth_error l n = Some a -> skipn n l = a :: skipn (S n) l.
Proof.
  induction l as [|x l IH]; intros [|n] a H; try discriminate.
  - injection H as ->. reflexivity.
  - cbn [nth_error] in H. cbn [skipn]. rewrite (IH n a H). reflexivity.
Qed.

Lemma lor_below (a b k : Z) :
  0 <= k -> 0 <= a < 2 ^ k -> 0 <= b < 2 ^ k -> 0 <= Z.lor a b < 2 ^ k.
Proof.
  intros Hk Ha Hb. split; [apply Z.lor_nonneg; lia|].
  destruct (Z.eq_dec a 0) as [->|Hna]; [rewrite Z.lor_0_l; lia|].
  destruct (Z.eq_dec b 0) as [->|Hnb]; [rewrite Z.lor_0_r; lia|].
  assert (Hpos : 0 < Z.lor a b).
  { assert (0 <= Z.lor a b) by (apply Z.lor_nonneg; lia).
    assert (Z.lor a b <> 0) by (rewrite Z.lor_eq_0_iff; tauto). lia. }
  apply Z.log2_lt_pow2; [assumption|].
  rewrite Z.log2_lor by lia.
  apply Z.max_lub_lt; apply Z.log2_lt_pow2; lia.
Qed.

Lemma unpack_varint_loop_range (fuel : nat) :
  forall buff offset size shift result n r,
  0 <= shift -> 0 <= result < 2 ^ shift ->
  unpack_varint_loop fuel buff offset size shift result = Ok (n, r) ->
  0 <= r < 2 ^ (shift + 7 * (n - size)).
Proof.
  induction fuel as [|fuel IH]; intros buff offset size shift result n r Hs Hr H;
    cbn [unpack_varint_loop] in H; [discriminate|].
  bind_inv H i Hi.
  assert (Hi' : 0 <= i < 256).
  { unfold ord in Hi. destruct (slice buff offset (offset + 1)) as [|b [|]];
      try discriminate. injection Hi as <-. apply byte_val_range. }
  assert (Hnew : 0 <= Z.lor result (Z.shiftl (Z.land i 127) shift)
                 < 2 ^ (shift + 7)).
  { pose proof (land127_range i) as Hl.
    apply lor_below; [lia| |].
    - split; [lia|]. eapply Z.lt_le_trans; [apply Hr|].
      apply Z.pow_le_mono_r; lia.
    - rewrite Z.shiftl_mul_pow2 by lia.
      rewrite Z.pow_add_r by lia.
      assert (0 < 2 ^ shift) by (apply Z.pow_pos_nonneg; lia).
      change (2 ^ 7) with 128. nia. }
  destruct (Z.land i 128 =? 0).
  - injection H as <- <-.
    replace (shift + 7 * (size + 1 - size)) with (shift + 7) by lia.
    assumption.
  - apply IH in H; [|lia|assumption].
    replace (shift + 7 * (n - size)) with (shift + 7 + 7 * (n - (size + 1)))
      by lia.
    assumption.
Qed.

Lemma unpack_varint_loop_unterminated (fuel : nat) :
  forall buff offset size shift result,
  0 <= offset ->
  Forall (fun b => Z.land (Struct.byte_val b) 128 <> 0)
         (skipn (Z.to_nat offset) buff) ->
  len buff - offset <= Z.of_nat fuel ->
  unpack_varint_loop (S fuel) buff offset size shift result = Err TypeError.
Proof.
  induction fuel as [|fuel IH]; intros buff offset size shift result Ho HF Hf;
    cbn [unpack_varint_loop];
    (destruct (nth_error buff (Z.to_nat offset)) as [b|] eqn:E;
     [|apply nth_error_None in E;
       assert (Hs : slice buff offset (offset + 1) = []);
       [unfold slice, clamp, len;
        rewrite !(proj2 (Z.ltb_ge _ 0)) by lia;
        rewrite !Z.min_l, !Z.max_r by lia;
        rewrite Z.sub_diag; reflexivity
       |rewrite Hs; reflexivity]]).
  - exfalso. assert (Z.to_nat offset < List.length buff)%nat
      by (apply nth_error_Some; congruence).
    unfold len in Hf. lia.
  - rewrite (slice_one buff offset b Ho E). cbn [ord bind].
    assert (Hsplit : skipn (Z.to_nat offset) buff
                     = b :: skipn (S (Z.to_nat offset)) buff).
    { apply skipn_nth. assumption. }
    rewrite Hsplit in HF. inversion HF as [|? ? Hb HF']; subst.
    fold (Struct.byte_val b).
    rewrite (proj2 (Z.eqb_neq _ 0) Hb).
    apply IH.
    + lia.
    + replace (Z.to_nat (offset + 1)) with (S (Z.to_nat offset)) by lia.
      assumption.
    + lia.
Qed.

Lemma slice_one_none (buff : list byte) (o : Z) :
  0 <= o -> nth_error buff (Z.to_nat o) = None -> slice buff o (o + 1) = [].
Proof.
  intros Ho E. apply nth_error_None in E.
  unfold slice, clamp, len.
  rewrite !(proj2 (Z.ltb_ge _ 0)) by lia.
  rewrite !Z.min_l, !Z.max_r by lia.
  rewrite Z.sub_diag. reflexivity.
Qed.

Lemma unpack_varint_loop_agree (fuel : nat) :
  forall buff buff2 offset size shift result n r fuel2,
  0 <= offset ->
  unpack_varint_loop fuel buff offset size shift result = Ok (n, r) ->
  (forall i : nat, offset <= Z.of_nat i < offset + (n - size) ->
     nth_error buff2 i = nth_error buff i) ->
  n - size <= Z.of_nat fuel2 ->
  unpack_varint_loop fuel2 buff2 offset size shift result = Ok (n, r).
Proof.
  induction fuel as [|fuel IH];
    intros buff buff2 offset size shift result n r fuel2 Ho H Hsame Hf;
    [discriminate|].
  destruct (unpack_varint_loop_ok _ _ _ _ _ _ _ _ H) as (Hn & _).
  cbn [unpack_varint_loop] in H.
  destruct fuel2 as [|fuel2]; [lia|]. cbn [unpack_varint_loop].
  destruct (nth_error buff (Z.to_nat offset)) as [b|] eqn:E.
  - assert (E2 : nth_error buff2 (Z.to_nat offset) = Some b)
      by (rewrite Hsame by lia; assumption).
    rewrite (slice_one buff offset b Ho E) in H.
    rewrite (slice_one buff2 offset b Ho E2).
    cbn [ord bind] in H |- *.
    destruct (Z.land (Z.of_N (Byte.to_N b)) 128 =? 0); [assumption|].
    destruct (unpack_varint_loop_ok _ _ _ _ _ _ _ _ H) as (Hn' & _).
    apply (IH buff); try assumption; try lia.
    intros i Hi. apply Hsame. lia.
  - rewrite (slice_one_none buff offset Ho E) in H. discriminate.
Qed.

Section VarintExtras.

Variable p : Struct.platform.


(** X3.  [unpack_varint_from] reads the base-128 form of a number that
    is not negative, seven bits a byte from the lowest up, the top bit
    set on every byte but the last, wherever the bytes lie in the
    buffer and whatever follows them: it returns their number and the
    value. *)
Theorem unpack_varint_from_base128 (val : Z) (pre rest : list byte) :
  0 <= val ->
  unpack_varint_from (pre ++ bytes_of_list (varint_bytes val) ++ rest)
                     (len pre)
  = Ok (varint_size val, val).
Proof. apply unpack_varint_bytes. Qed.



End VarintExtras.

(** X6.  What [unpack_varint_from] decodes from [n] bytes lies inside
    the buffer and is a number of [7n] bits at most. *)
Theorem unpack_varint_from_range (buff : list byte) (offset n r : Z) :
  0 <= offset ->
  unpack_varint_from buff offset = Ok (n, r) ->
  1 <= n /\ offset + n <= len buff /\ 0 <= r < 2 ^ (7 * n).
Proof.
  intros Ho H.
  destruct (unpack_varint_from_ok _ _ _ _ H) as (Hn & Hb).
  split; [assumption|]. split; [auto|].
  unfold unpack_varint_from in H.
  apply unpack_varint_loop_range in H; [|lia|simpl; lia].
  replace (0 + 7 * (n - 0)) with (7 * n) in H by lia. assumption.
Qed.

(** X7.  A varint with no last byte, every byte from the offset to the
    end of the buffer having its top bit set, raises [TypeError]; so
    does an offset at or past the end. *)
Theorem unpack_varint_from_unterminated (buff : list byte) (offset : Z) :
  0 <= offset ->
  Forall (fun b => Z.land (Struct.byte_val b) 128 <> 0)
         (skipn (Z.to_nat offset) buff) ->
  unpack_varint_from buff offset = Err TypeError.
Proof.
  intros Ho HF. unfold unpack_varint_from.
  apply unpack_varint_loop_unterminated; try assumption.
  unfold len. lia.
Qed.

(** X8.  What [unpack_varint_from] returns depends on the [n] bytes it
    consumes and on no other byte of the buffer. *)
Theorem unpack_varint_from_local (buff buff2 : list byte) (offset n r : Z) :
  0 <= offset ->
  unpack_varint_from buff offset = Ok (n, r) ->
  (forall i : nat, offset <= Z.of_nat i < offset + n ->
     nth_error buff2 i = nth_error buff i) ->
  unpack_varint_from buff2 offset = Ok (n, r).
Proof.
  intros Ho H Hsame.
  destruct (unpack_varint_from_ok _ _ _ _ H) as (Hn & Hb).
  specialize (Hb Ho). unfold unpack_varint_from in *.
  apply (unpack_varint_loop_agree _ buff _ _ _ _ _ _ _ _ Ho H).
  - intros i Hi. apply Hsame. lia.
  - assert (Hlast : nth_error buff2 (Z.to_nat (offset + n - 1)) <> None).
    { rewrite Hsame by lia. apply nth_error_Some. unfold len in Hb. lia. }
    apply nth_error_Some in Hlast. lia.
Qed.

Lemma unpack_varint_from_base128_witness :
  0 <= 300 /\
  unpack_varint_from
    (bytes_of_list [7] ++ bytes_of_list (varint_bytes 300)
                   ++ bytes_of_list [9]) (len (bytes_of_list [7]))
  = Ok (varint_size 300, 300) /\
  varint_bytes 300 = [172; 2] /\ varint_size 300 = 2.
Proof.
  assert (H : 0 <= 300) by lia.
  split; [exact H|].
  split; [|split; reflexivity].
  exact (unpack_varint_from_base128 300 (bytes_of_list [7])
           (bytes_of_list [9]) H).
Defined.



Lemma unpack_varint_from_range_witness :
  0 <= 0 /\
  unpack_varint_from (bytes_of_list [172; 2]) 0 = Ok (2, 300) /\
  1 <= 2 /\ 0 + 2 <= len (bytes_of_list [172; 2]) /\ 0 <= 300 < 2 ^ (7 * 2).
Proof.
  assert (H : 0 <= 0) by lia.
  split; [exact H|]. split; [reflexivity|].
  exact (unpack_varint_from_range (bytes_of_list [172; 2]) 0 2 300 H eq_refl).
Defined.

Lemma unpack_varint_from_unterminated_witness :
  0 <= 0 /\
  Forall (fun b => Z.land (Struct.byte_val b) 128 <> 0)
         (skipn (Z.to_nat 0) (bytes_of_list [172; 130])) /\
  unpack_varint_from (bytes_of_list [172; 130]) 0 = Err TypeError.
Proof.
  assert (H1 : 0 <= 0) by lia.
  assert (H2 : Forall (fun b => Z.land (Struct.byte_val b) 128 <> 0)
                 (skipn (Z.to_nat 0) (bytes_of_list [172; 130])))
    by (repeat constructor; vm_compute; discriminate).
  split; [exact H1|]. split; [exact H2|].
  exact (unpack_varint_from_unterminated (bytes_of_list [172; 130]) 0 H1 H2).
Defined.

Lemma unpack_varint_from_local_witness :
  0 <= 0 /\
  unpack_varint_from (bytes_of_list [172; 2; 9]) 0 = Ok (2, 300) /\
  unpack_varint_from (bytes_of_list [172; 2]) 0 = Ok (2, 300).
Proof.
  assert (H : 0 <= 0) by lia.
  split; [exact H|]. split; [reflexivity|].
  apply (unpack_varint_from_local (bytes_of_list [172; 2; 9])
           (bytes_of_list [172; 2]) 0 2 300 H eq_refl).
  intros i Hi. destruct i as [|[|i]]; [reflexivity | reflexivity | lia].
Defined.

(** ** Decoding *)

(** ** Decoding *)

Lemma normalize_marker (c : ascii) (fmt : list ascii) :
  char_in c (str "!><") = true ->
  normalize (c :: fmt) = Ok (remove_char " " fmt).
Proof.
  intros H. cbn in H.
  assert (Hc : c = "!"%char \/ c = ">"%char \/ c = "<"%char).
  { destruct (Ascii.eqb c "!") eqn:E1; [apply Ascii.eqb_eq in E1; tauto|].
    destruct (Ascii.eqb c ">") eqn:E2; [apply Ascii.eqb_eq in E2; tauto|].
    destruct (Ascii.eqb c "<") eqn:E3; [apply Ascii.eqb_eq in E3; tauto|].
    discriminate. }
  destruct Hc as [-> | [-> | ->]]; reflexivity.
Qed.

Lemma remove_char_app (c : ascii) (a b : list ascii) :
  remove_char c (a ++ b) = remove_char c a ++ remove_char c b.
Proof. unfold remove_char. apply filter_app. Qed.

Lemma walk_unclosed (p : Struct.platform)
    (arr : list ascii -> list byte -> Z -> Z -> Py.result (list value * Z))
    (buff : list byte) (items : list value) (offset count : Z)
    (s : list ascii) :
  forall acc,
  ~ In "]"%char s ->
  walk p arr buff s items (Some acc) offset count = Ok (items, offset).
Proof.
  induction s as [|c s IH]; intros acc Hn; cbn [walk]; [reflexivity|].
  destruct (Ascii.eqb c "]") eqn:E.
  - apply Ascii.eqb_eq in E. subst c. exfalso. apply Hn. left. reflexivity.
  - cbn [andb]. apply IH. intros Hin. apply Hn. right. assumption.
Qed.

Lemma unpack_array_loop_acc
    (unpack : Z -> Py.result (list value * Z)) (k : nat) :
  forall output offset,
  unpack_array_loop unpack k output offset =
  ('(r, e) <- unpack_array_loop unpack k [] offset ;; Ok (output ++ r, e)).
Proof.
  induction k as [|k IH]; intros output offset; cbn [unpack_array_loop].
  - cbn [bind]. rewrite app_nil_r. reflexivity.
  - destruct (unpack offset) as [[item o1]|]; cbn [bind]; [|reflexivity].
    rewrite (IH (output ++ [item])), (IH ([] ++ [item])).
    destruct (unpack_array_loop unpack k [] o1) as [[r e]|]; cbn [bind];
      [|reflexivity].
    rewrite <- app_assoc. reflexivity.
Qed.

(** A character that is no code of the standard mode. *)
Lemma not_code_error (p : Struct.platform) (ch : ascii)
    (buff : list byte) (offset : Z) :
  Struct.std_size ch = None -> Struct.is_space ch = false ->
  Struct.unpack_from p ["!"%char; ch] buff offset
  = Err (if Struct.is_ascii ch then StructError else UnicodeEncodeError).
Proof.
  intros Hs Hsp.
  destruct ch as [[] [] [] [] [] [] [] []];
    vm_compute in Hs; try discriminate Hs;
    vm_compute in Hsp; try discriminate Hsp; reflexivity.
Qed.

(** A code of the standard mode is a code of the native mode. *)
Lemma native_code (p : Struct.platform) (ch : ascii) (s : Z) :
  Struct.calcsize p ["!"%char; ch] = Ok s ->
  exists n, Struct.calcsize p [ch] = Ok n.
Proof.
  destruct p as [le l8 p8 a8].
  destruct ch as [[] [] [] [] [] [] [] []];
    destruct l8, a8, p8; intros H; vm_compute in H;
    try discriminate; eexists; vm_compute; reflexivity.
Qed.

Lemma struct_unpack_from_calcsize (p : Struct.platform) (fmt : list ascii)
    (buff : list byte) (offset : Z) (vs : list value) :
  Struct.unpack_from p fmt buff offset = Ok vs ->
  exists s, Struct.calcsize p fmt = Ok s.
Proof.
  unfold Struct.unpack_from, Struct.calcsize. intros H.
  destruct (Struct.compile p fmt) as [[[[m items] its] size]|]; [|discriminate].
  cbn [bind]. eauto.
Qed.

Section DecodeExtras.

Variable p : Struct.platform.

(** X2.  From an offset that is not negative, what [unpack_from]
    returns for a buffer it returns for every buffer that starts with
    the same bytes: nothing it decodes depends on where the buffer
    ends. *)
Theorem unpack_from_longer_buffer (fmt : list ascii)
    (buff extra : list byte) (offset : Z) (v : value) :
  0 <= offset ->
  unpack_from p fmt buff offset = Ok v ->
  unpack_from p fmt (buff ++ extra) offset = Ok v.
Proof.
  intros Ho H. unfold unpack_from in *.
  bind_inv H f Hf. rewrite Hf. cbn [bind].
  bind_inv H x Hx. destruct x as [output e].
  unfold _unpack in *.
  destruct (unpack_fuel_stable p _ _ _ extra _ _ _ _ Ho Hx) as (_ & Hx').
  rewrite Hx'. cbn [bind]. exact H.
Qed.

(** X9.  It is always network order: a code is decoded as [struct]
    decodes it after [!], whether the format is marked [<], [>] or
    [!], or not marked at all. *)
Theorem unpack_from_network_order (c ch : ascii) (buff : list byte)
    (offset : Z) (vs : list value) :
  char_in c (str "!><") = true ->
  char_in ch (str "[VSY ") = false ->
  Struct.unpack_from p ["!"%char; ch] buff offset = Ok vs ->
  unpack_from p [c; ch] buff offset = Ok (VTuple vs) /\
  unpack_from p [ch] buff offset = Ok (VTuple vs).
Proof.
  intros Hc Hch Hu.
  assert (Hsplit : char_in ch (str "[VSY") = false
                   /\ Ascii.eqb ch " " = false /\ Ascii.eqb ch "[" = false).
  { unfold char_in in Hch |- *.
    cbn [str list_ascii_of_string existsb] in Hch |- *.
    destruct (Ascii.eqb ch "["), (Ascii.eqb ch "V"), (Ascii.eqb ch "S"),
      (Ascii.eqb ch "Y"), (Ascii.eqb ch " "); try discriminate; auto. }
  destruct Hsplit as (Hcode & Hsp & Hbr).
  assert (Hord : char_in ch (str "!><") = false).
  { destruct (char_in ch (str "!><")) eqn:E; [|reflexivity].
    exfalso.
    assert (Hx : ch = "!"%char \/ ch = ">"%char \/ ch = "<"%char).
    { unfold char_in in E. cbn [str list_ascii_of_string existsb] in E.
      destruct (Ascii.eqb ch "!") eqn:E1; [apply Ascii.eqb_eq in E1; tauto|].
      destruct (Ascii.eqb ch ">") eqn:E2; [apply Ascii.eqb_eq in E2; tauto|].
      destruct (Ascii.eqb ch "<") eqn:E3; [apply Ascii.eqb_eq in E3; tauto|].
      discriminate. }
    destruct Hx as [-> | [-> | ->]];
      rewrite not_code_error in Hu by reflexivity; discriminate. }
  assert (Hrm : remove_char " " [ch] = [ch]).
  { unfold remove_char. cbn [filter]. rewrite Hsp. reflexivity. }
  destruct (struct_unpack_from_calcsize p _ _ _ _ Hu) as (s & Hs).
  destruct (native_code p ch s Hs) as (n & Hn).
  assert (Hwalk : _unpack p [ch] buff offset 1 = Ok (vs, offset + n)).
  { rewrite unpack_walk, (walk_code p _ _ _ _ _ _ _ Hcode).
    rewrite Hu. cbn [bind]. rewrite Hn. reflexivity. }
  assert (Hres : forall fmt, normalize fmt = Ok [ch] ->
                 unpack_from p fmt buff offset = Ok (VTuple vs)).
  { intros fmt Hf. unfold unpack_from. rewrite Hf. cbn [bind].
    rewrite Hwalk. cbn [bind index nth_error]. rewrite Hbr. reflexivity. }
  split; apply Hres.
  - rewrite (normalize_marker c [ch] Hc), Hrm. reflexivity.
  - unfold normalize. rewrite Hrm. cbn [index nth_error bind].
    rewrite Hord. reflexivity.
Qed.

(** X10.  A space put anywhere in a format changes nothing. *)
Theorem unpack_from_space_ignored (a b : list ascii) (buff : list byte)
    (offset : Z) :
  unpack_from p (a ++ " "%char :: b) buff offset
  = unpack_from p (a ++ b) buff offset.
Proof.
  unfold unpack_from, normalize.
  rewrite !remove_char_app. reflexivity.
Qed.

(** X11.  An array that is never closed is dropped without a word:
    nothing is read, nothing is raised, and the empty tuple is
    returned, whatever the buffer and the offset. *)
Theorem unpack_from_unclosed_array (inner : list ascii) (buff : list byte)
    (offset : Z) :
  ~ In "]"%char inner ->
  unpack_from p ("["%char :: inner) buff offset = Ok (VTuple []).
Proof.
  intros Hn. unfold unpack_from, normalize.
  change (remove_char " " ("["%char :: inner))
    with ("["%char :: remove_char " " inner).
  cbn [index nth_error bind]. change (char_in "[" (str "!><")) with false.
  cbv iota. rewrite unpack_walk. cbn [walk].
  change (Ascii.eqb "[" "[") with true. cbv iota.
  rewrite walk_unclosed.
  - reflexivity.
  - intros Hin. apply Hn. unfold remove_char in Hin.
    apply filter_In in Hin. tauto.
Qed.

(** X12.  An array whose count is zero or negative (Kafka writes -1
    for a null array) is decoded as the empty list, and the four bytes
    of the count are all that is consumed. *)
Theorem unpack_array_without_items (inner : list ascii) (buff : list byte)
    (offset count : Z) :
  well_nested inner 0 = true ->
  0 <= offset -> offset + 4 <= len buff ->
  Struct.to_signed 32 (Struct.be_uint (Struct.bytes_at buff offset 4)) <= 0 ->
  _unpack p ("["%char :: inner ++ ["]"%char]) buff offset count
  = Ok ([VList []], offset + 4).
Proof.
  intros Hw Ho Hl Hc. rewrite unpack_walk, (walk_array p _ _ _ _ _ _ _ Hw).
  rewrite (unpack_int32 p buff offset Ho Hl).
  cbn [bind index nth_error int_val].
  unfold _unpack_array, unpack_array_with.
  replace (Z.to_nat (Struct.to_signed 32
             (Struct.be_uint (Struct.bytes_at buff offset 4)))) with 0%nat
    by lia.
  cbn [unpack_array_loop bind].
  destruct (Nat.eqb (List.length inner) 1); reflexivity.
Qed.

(** X13.  Decoding an array of [count + 1] items is decoding one item
    and then an array of [count] items from where the first one ends. *)
Theorem unpack_array_unfold (fmt : list ascii) (buff : list byte)
    (offset count : Z) :
  0 <= count ->
  _unpack_array p fmt buff offset (count + 1) =
  ('(item, o1) <- _unpack p fmt buff offset 1 ;;
   '(rest, o2) <- _unpack_array p fmt buff o1 count ;;
   Ok ((if Nat.eqb (List.length fmt) 1 then item else [VTuple item]) ++ rest,
       o2)).
Proof.
  intros Hc. unfold _unpack_array, unpack_array_with.
  replace (Z.to_nat (count + 1)) with (S (Z.to_nat count)) by lia.
  cbn [unpack_array_loop].
  destruct (_unpack p fmt buff offset 1) as [[item o1]|]; cbn [bind];
    [|reflexivity].
  rewrite unpack_array_loop_acc.
  destruct (unpack_array_loop _ (Z.to_nat count) [] o1) as [[r e]|];
    cbn [bind]; [|reflexivity].
  destruct (Nat.eqb (List.length fmt) 1);
    cbn [bind app List.concat map]; reflexivity.
Qed.

Lemma walk_length_prefix
    (arr : list ascii -> list byte -> Z -> Z -> Py.result (list value * Z))
    (buff : list byte) (ch : ascii) (fmt' : list ascii)
    (items : list value) (offset count : Z) :
  char_in ch (str "SY") = true ->
  0 <= offset ->
  offset + (if Ascii.eqb ch "S" then 2 else 4) <= len buff ->
  walk p arr buff (ch :: fmt') items None offset count =
  (let prefix := if Ascii.eqb ch "S" then 2 else 4 in
   let n := Struct.to_signed (8 * prefix)
              (Struct.be_uint (Struct.bytes_at buff offset prefix)) in
   if n =? -1
   then walk p arr buff fmt' (items ++ [VNone]) None (offset + prefix) count
   else
     vs <- Struct.unpack_from p ("!"%char :: decimal n ++ str "s") buff
             (offset + prefix) ;;
     sz <- Struct.calcsize p (decimal n ++ str "s") ;;
     walk p arr buff fmt' (items ++ vs) None (offset + prefix + sz) count).
Proof.
  intros Hch Ho Hl. cbn [walk]. rewrite Hch.
  destruct (in_SY ch Hch) as [-> | ->].
  - change (Ascii.eqb "S" "[") with false.
    change (Ascii.eqb "S" "V") with false.
    change (Ascii.eqb "S" "S") with true in *. cbv iota in *.
    rewrite (unpack_int16 p buff offset Ho Hl).
    cbn [bind index nth_error int_val]. rewrite calcsize_int16.
    cbn [bind]. reflexivity.
  - change (Ascii.eqb "Y" "[") with false.
    change (Ascii.eqb "Y" "V") with false.
    change (Ascii.eqb "Y" "S") with false in *. cbv iota in *.
    rewrite (unpack_int32 p buff offset Ho Hl).
    cbn [bind index nth_error int_val]. rewrite calcsize_int32.
    cbn [bind]. reflexivity.
Qed.

(** X14.  For [S] and [Y], a length below -1, and a length that runs
    past the end of the buffer, raise [struct.error]: -1 is the only
    negative length that stands for [None]. *)
Theorem unpack_length_prefixed_error
    (arr : list ascii -> list byte -> Z -> Z -> Py.result (list value * Z))
    (buff : list byte) (ch : ascii) (fmt' : list ascii)
    (items : list value) (offset count : Z) :
  char_in ch (str "SY") = true ->
  0 <= offset ->
  let prefix := if Ascii.eqb ch "S" then 2 else 4 in
  offset + prefix <= len buff ->
  let n := Struct.to_signed (8 * prefix)
             (Struct.be_uint (Struct.bytes_at buff offset prefix)) in
  n < -1 \/ len buff < offset + prefix + n ->
  walk p arr buff (ch :: fmt') items None offset count = Err StructError.
Proof.
  intros Hch Ho prefix Hl n Hn.
  rewrite (walk_length_prefix arr buff ch fmt' items offset count Hch Ho Hl).
  cbv zeta. change (if Ascii.eqb ch "S" then 2 else 4) with prefix.
  change (Struct.to_signed (8 * prefix)
            (Struct.be_uint (Struct.bytes_at buff offset prefix))) with n.
  assert (Hp : 0 <= prefix) by (subst prefix; destruct (Ascii.eqb ch "S"); lia).
  destruct (Z_lt_le_dec n 0) as [Hneg|Hpos].
  - assert (Hn1 : n <> -1) by lia.
    rewrite (proj2 (Z.eqb_neq n (-1)) Hn1).
    rewrite (unpack_negative_string p n _ _ Hneg). reflexivity.
  - rewrite (proj2 (Z.eqb_neq n (-1))) by lia.
    assert (Hpre : prefix = 2 \/ prefix = 4)
      by (subst prefix; destruct (Ascii.eqb ch "S"); auto).
    pose proof (prefix_value_bound buff offset prefix Ho Hpre Hl) as Hlt.
    fold n in Hlt. pose proof (ssize_max_pos p) as Hmax.
    assert (Hn' : 0 <= n <= Struct.ssize_max p) by lia.
    rewrite (unpack_counted_string p n buff (offset + prefix) Hn').
    rewrite resolve_offset_short by lia. reflexivity.
Qed.


(** X17.  From an offset that is not negative, a buffer cut before
    the place the cursor reaches on the whole buffer is not decoded:
    an exception is raised.  The cursor moves by the native size of a
    code, which for [l] and [L], where a C long has eight bytes, is
    four more than the bytes read; for a format holding one of them
    the cut is compared with the cursor less four. *)
Theorem unpack_from_short_buffer (fmt fmt' : list ascii) (buff : list byte)
    (offset : Z) (items : list value) (e : Z) (k : nat) :
  0 <= offset ->
  normalize fmt = Ok fmt' ->
  _unpack p fmt' buff offset 1 = Ok (items, e) ->
  offset < e ->
  Z.of_nat k + overshoot p fmt' < e ->
  exists err,
    unpack_from p fmt (firstn k buff) offset = Err err /\
    err <> OutOfFuel.
Proof.
  intros Ho Hn Hfull Hoe Hcut.
  destruct (unpack_from p fmt (firstn k buff) offset) as [v|err] eqn:E.
  - exfalso. unfold unpack_from in E. rewrite Hn in E. cbn [bind] in E.
    bind_inv E x Hx. destruct x as [output e'].
    unfold _unpack in Hx, Hfull.
    pose proof (unpack_fuel_bound p _ _ _ _ _ _ _ Ho Hx) as Hb.
    destruct (unpack_fuel_stable p _ _ _ (skipn k buff) _ _ _ _ Ho Hx)
      as (_ & Hx').
    rewrite firstn_skipn in Hx'. rewrite Hx' in Hfull.
    injection Hfull as _ <-.
    assert (len (firstn k buff) <= Z.of_nat k)
      by (unfold len; rewrite length_firstn; lia).
    lia.
  - exists err. split; [reflexivity|].
    intros ->. exact (unpack_from_error p _ _ _ E).
Qed.

(** X24.  Outside an array, a character that is no code of the
    standard mode raises [struct.error]: a digit, so that a repeat
    count cannot be decoded, a second order character, the codes [n],
    [N] and [P], a closing bracket with no array open.  A character
    outside ASCII raises [UnicodeEncodeError]. *)
Theorem unpack_not_a_code
    (arr : list ascii -> list byte -> Z -> Z -> Py.result (list value * Z))
    (buff : list byte) (ch : ascii) (fmt' : list ascii)
    (items : list value) (offset count : Z) :
  Ascii.eqb ch "[" = false -> Ascii.eqb ch "V" = false ->
  char_in ch (str "SY") = false ->
  Struct.std_size ch = None -> Struct.is_space ch = false ->
  walk p arr buff (ch :: fmt') items None offset count
  = Err (if Struct.is_ascii ch then StructError else UnicodeEncodeError).
Proof.
  intros H1 H2 H3 Hs Hsp. cbn [walk]. rewrite H1, H2, H3.
  rewrite (not_code_error p ch buff offset Hs Hsp). reflexivity.
Qed.

End DecodeExtras.

Lemma unpack_from_longer_buffer_witness :
  0 <= 0 /\
  unpack_from Struct.x86_64 (str "[i]") array_example 0
  = Ok (VList [VInt 1; VInt 2; VInt 3]) /\
  unpack_from Struct.x86_64 (str "[i]")
    (array_example ++ bytes_of_list [9; 9]) 0
  = Ok (VList [VInt 1; VInt 2; VInt 3]).
Proof.
  assert (H : 0 <= 0) by lia.
  split; [exact H|]. split; [reflexivity|].
  exact (unpack_from_longer_buffer Struct.x86_64 (str "[i]") array_example
           (bytes_of_list [9; 9]) 0 (VList [VInt 1; VInt 2; VInt 3])
           H eq_refl).
Defined.

Lemma unpack_from_network_order_witness :
  char_in "<" (str "!><") = true /\
  char_in "i" (str "[VSY ") = false /\
  Struct.unpack_from Struct.x86_64 (str "!i") (bytes_of_list [0; 0; 0; 1]) 0
  = Ok [VInt 1] /\
  Struct.unpack_from Struct.x86_64 (str "<i") (bytes_of_list [0; 0; 0; 1]) 0
  = Ok [VInt 16777216] /\
  unpack_from Struct.x86_64 (str "<i") (bytes_of_list [0; 0; 0; 1]) 0
  = Ok (VTuple [VInt 1]) /\
  unpack_from Struct.x86_64 (str "i") (bytes_of_list [0; 0; 0; 1]) 0
  = Ok (VTuple [VInt 1]).
Proof.
  assert (H1 : char_in "<" (str "!><") = true) by reflexivity.
  assert (H2 : char_in "i" (str "[VSY ") = false) by reflexivity.
  assert (H3 : Struct.unpack_from Struct.x86_64 (str "!i")
                 (bytes_of_list [0; 0; 0; 1]) 0 = Ok [VInt 1])
    by reflexivity.
  split; [exact H1|]. split; [exact H2|]. split; [exact H3|].
  split; [reflexivity|].
  exact (unpack_from_network_order Struct.x86_64 "<" "i"
           (bytes_of_list [0; 0; 0; 1]) 0 [VInt 1] H1 H2 H3).
Defined.

Lemma unpack_from_unclosed_array_witness :
  ~ In "]"%char (str "ii") /\
  unpack_from Struct.x86_64 (str "[ii") [] 0 = Ok (VTuple []).
Proof.
  assert (H : ~ In "]"%char (str "ii")).
  { simpl. intros [H|[H|H]]; [discriminate H | discriminate H | exact H]. }
  split; [exact H|].
  exact (unpack_from_unclosed_array Struct.x86_64 (str "ii") [] 0 H).
Defined.

Lemma unpack_array_without_items_witness :
  well_nested (str "i") 0 = true /\ 0 <= 0 /\
  0 + 4 <= len (bytes_of_list [255; 255; 255; 255]) /\
  Struct.to_signed 32
    (Struct.be_uint (Struct.bytes_at (bytes_of_list [255; 255; 255; 255]) 0 4))
  <= 0 /\
  _unpack Struct.x86_64 ("["%char :: str "i" ++ ["]"%char])
    (bytes_of_list [255; 255; 255; 255]) 0 1 = Ok ([VList []], 0 + 4).
Proof.
  assert (H1 : well_nested (str "i") 0 = true) by reflexivity.
  assert (H2 : 0 <= 0) by lia.
  assert (H3 : 0 + 4 <= len (bytes_of_list [255; 255; 255; 255]))
    by (vm_compute; discriminate).
  assert (H4 : Struct.to_signed 32
    (Struct.be_uint (Struct.bytes_at (bytes_of_list [255; 255; 255; 255]) 0 4))
    <= 0) by (vm_compute; discriminate).
  split; [exact H1|]. split; [exact H2|]. split; [exact H3|].
  split; [exact H4|].
  exact (unpack_array_without_items Struct.x86_64 (str "i")
           (bytes_of_list [255; 255; 255; 255]) 0 1 H1 H2 H3 H4).
Defined.

Lemma unpack_array_unfold_witness :
  0 <= 1 /\
  _unpack_array Struct.x86_64 (str "i")
    (bytes_of_list [0; 0; 0; 1; 0; 0; 0; 2]) 0 (1 + 1)
  = Ok ([VInt 1; VInt 2], 8).
Proof.
  assert (H : 0 <= 1) by lia.
  split; [exact H|].
  rewrite (unpack_array_unfold Struct.x86_64 (str "i")
             (bytes_of_list [0; 0; 0; 1; 0; 0; 0; 2]) 0 1 H).
  reflexivity.
Defined.

Lemma unpack_length_prefixed_error_witness :
  char_in "S" (str "SY") = true /\ 0 <= 0 /\
  0 + 2 <= len (bytes_of_list [255; 254]) /\
  walk Struct.x86_64 (_unpack_array Struct.x86_64) (bytes_of_list [255; 254])
       ["S"%char] [] None 0 1 = Err StructError.
Proof.
  assert (H1 : char_in "S" (str "SY") = true) by reflexivity.
  assert (H2 : 0 <= 0) by lia.
  assert (H3 : 0 + 2 <= len (bytes_of_list [255; 254]))
    by (vm_compute; discriminate).
  split; [exact H1|]. split; [exact H2|]. split; [exact H3|].
  apply (unpack_length_prefixed_error Struct.x86_64
           (_unpack_array Struct.x86_64) (bytes_of_list [255; 254]) "S" [] []
           0 1 H1 H2 H3).
  left. reflexivity.
Defined.


Lemma unpack_from_short_buffer_witness :
  0 <= 0 /\
  normalize (str "ii") = Ok (str "ii") /\
  _unpack Struct.x86_64 (str "ii") (bytes_of_list [0;0;0;1; 0;0;0;2]) 0 1
  = Ok ([VInt 1; VInt 2], 8) /\
  0 < 8 /\ Z.of_nat 7 + overshoot Struct.x86_64 (str "ii") < 8 /\
  exists err,
    unpack_from Struct.x86_64 (str "ii")
      (firstn 7 (bytes_of_list [0;0;0;1; 0;0;0;2])) 0 = Err err /\
    err <> OutOfFuel.
Proof.
  assert (H0 : 0 <= 0) by lia.
  assert (H3 : 0 < 8) by lia.
  assert (H4 : Z.of_nat 7 + overshoot Struct.x86_64 (str "ii") < 8)
    by reflexivity.
  split; [exact H0|]. split; [reflexivity|]. split; [reflexivity|].
  split; [exact H3|]. split; [exact H4|].
  exact (unpack_from_short_buffer Struct.x86_64 (str "ii") (str "ii")
           (bytes_of_list [0;0;0;1; 0;0;0;2]) 0 [VInt 1; VInt 2] 8 7 H0
           eq_refl eq_refl H3 H4).
Defined.

Lemma unpack_not_a_code_witness :
  Ascii.eqb "2" "[" = false /\ Ascii.eqb "2" "V" = false /\
  char_in "2" (str "SY") = false /\
  Struct.std_size "2" = None /\ Struct.is_space "2" = false /\
  walk Struct.x86_64 (_unpack_array Struct.x86_64)
       (bytes_of_list [0; 0; 0; 1; 0; 0; 0; 2]) ("2"%char :: str "i")
       [] None 0 1 = Err StructError.
Proof.
  split; [reflexivity|]. split; [reflexivity|]. split; [reflexivity|].
  split; [reflexivity|]. split; [reflexivity|].
  apply (unpack_not_a_code Struct.x86_64 (_unpack_array Struct.x86_64)
           (bytes_of_list [0; 0; 0; 1; 0; 0; 0; 2]) "2" (str "i") [] 0 1);
    reflexivity.
Defined.

(** ** Encoding with arguments *)

Lemma re_split_V_run (s : list ascii) :
  forall rest cur,
  Forall (fun c => Ascii.eqb c "V" = false) s ->
  re_split_V (s ++ rest) cur = re_split_V rest (cur ++ s).
Proof.
  induction s as [|c s IH]; intros rest cur HF; cbn [app re_split_V].
  - rewrite app_nil_r. reflexivity.
  - inversion HF as [|? ? Hc HF']; subst. rewrite Hc.
    rewrite IH by assumption. rewrite <- app_assoc. reflexivity.
Qed.

Lemma digit_not_code (d : ascii) :
  Struct.is_digit d = true ->
  NOARG_STRUCT_FMTS d = true /\ Ascii.eqb d "V" = false.
Proof.
  destruct d as [[] [] [] [] [] [] [] []]; intros H;
    try discriminate H; split; reflexivity.
Qed.

Section EncodeExtras.

Variable p : Struct.platform.

(** X16.  A format that holds a [V] is never packed.  The parts before
    the first [V] are written, or raise; at the [V] an argument is
    missing, or is no integer, or [pack_varint_into] raises: the call
    ends in an exception, whatever the buffer, the offset and the
    arguments. *)
Theorem pack_into_varint_never_returns (fmt : list ascii)
    (buff : list byte) (offset : Z) (args : list value) :
  char_in "V" fmt = true ->
  exists e, pack_into p fmt buff offset args = Err e /\ e <> OutOfFuel.
Proof.
  intros HV. unfold pack_into. rewrite HV.
  destruct (pack_parts_varint p fmt (parts fmt) 0 buff offset args 0
              (parts_varint fmt HV)) as (e & He & Hne).
  exists e. rewrite He. split; [reflexivity | assumption].
Qed.

(** X18.  A format that starts with [V], given no argument, raises
    [IndexError]: the value is popped from an empty list. *)
Theorem pack_into_varint_without_argument (rest : list ascii)
    (buff : list byte) (offset : Z) :
  pack_into p ("V"%char :: rest) buff offset [] = Err IndexError.
Proof.
  unfold pack_into. cbn [char_in existsb].
  change (Ascii.eqb "V" "V") with true. cbn [orb].
  unfold parts. cbn [re_split_V].
  change (Ascii.eqb "V" "V") with true. cbv iota.
  cbn [filter nonempty pack_parts].
  change (str_eqb ["V"%char] (str "V")) with true.
  reflexivity.
Qed.

(** X19.  A repeat count in front of a code is not counted by the
    varint path: for [<k>iV] one argument is popped where [struct]
    takes [k], and unless [k] is one [struct.error] is raised. *)
Theorem pack_into_repeat_count (k : Z) (buff : list byte) (offset : Z)
    (v : value) (args : list value) :
  0 <= k -> k <> 1 ->
  pack_into p (decimal k ++ str "iV") buff offset (v :: args)
  = Err StructError.
Proof.
  intros Hk Hk1. destruct (decimal_nonneg k Hk) as (HF & Hne & Hval).
  assert (HnoV : Forall (fun c => Ascii.eqb c "V" = false) (decimal k)).
  { eapply Forall_impl; [|exact HF]. intros d Hd.
    apply (digit_not_code d Hd). }
  assert (Hparts : parts (decimal k ++ str "iV")
                   = [decimal k ++ str "i"; str "V"]).
  { unfold parts. rewrite re_split_V_run by assumption.
    cbn [app str list_ascii_of_string re_split_V].
    change (Ascii.eqb "i" "V") with false.
    change (Ascii.eqb "V" "V") with true. cbv iota.
    cbn [filter nonempty].
    destruct (decimal k) as [|d ds]; [congruence|]. reflexivity. }
  assert (Hargs : args_only_fmt (decimal k ++ str "i") = str "i").
  { unfold args_only_fmt, re_sub_empty. rewrite filter_app.
    replace (filter (fun c => negb (NOARG_STRUCT_FMTS c)) (decimal k))
      with (@nil ascii); [reflexivity|].
    clear -HF. induction HF as [|d ds Hd _ IH]; [reflexivity|].
    cbn [filter]. rewrite (proj1 (digit_not_code d Hd)). exact IH. }
  assert (HV : char_in "V" (decimal k ++ str "iV") = true).
  { unfold char_in. rewrite existsb_app. apply orb_true_iff. right.
    reflexivity. }
  assert (Hprep : Struct.prepare p (decimal k ++ str "i")
                  = Ok (Struct.Native, [(k, "i"%char)])).
  { unfold Struct.prepare.
    pose proof (check_format_digits [] (decimal k) (str "i") HF eq_refl)
      as Hchk.
    cbn [app] in Hchk. rewrite Hchk. cbn [bind].
    destruct (decimal k) as [|d ds] eqn:E; [congruence|].
    pose proof (Forall_inv HF) as H1.
    cbn [Struct.mode_of Struct.body_of app].
    rewrite (digit_not_order p d H1).
    change (d :: ds ++ str "i") with ((d :: ds) ++ str "i").
    rewrite parse_items_digits by (assumption || discriminate).
    rewrite Hval. reflexivity. }
  unfold pack_into. rewrite HV, Hparts. cbn [pack_parts].
  assert (Hneq : str_eqb (decimal k ++ str "i") (str "V") = false).
  { unfold str_eqb.
    destruct (list_eq_dec ascii_dec (decimal k ++ str "i") (str "V"))
      as [E|]; [|reflexivity].
    exfalso. apply (f_equal (fun l => last l " "%char)) in E.
    change (str "i") with ([] ++ ["i"%char]) in E.
    rewrite app_assoc, last_last in E. discriminate. }
  rewrite Hneq. cbn [negb]. rewrite Hargs.
  change (List.length (str "i")) with 1%nat. cbn [pop_many pop0 bind].
  replace (prefixed (decimal k ++ str "iV") 0 (decimal k ++ str "i"))
    with (decimal k ++ str "i")
    by (unfold prefixed; cbn [Nat.eqb negb]; rewrite andb_false_r;
        reflexivity).
  unfold Struct.pack_into, Struct.compile. rewrite Hprep. cbn [bind].
  destruct (Struct.layout p Struct.Native [(k, "i"%char)] 0)
    as [[its size]|e] eqn:El; cbn [bind].
  - unfold Struct.nargs, len.
    cbn [fold_right Struct.item_nargs List.length].
    replace (Z.of_nat 1 =? k + 0) with false
      by (symmetry; apply Z.eqb_neq; lia).
    reflexivity.
  - apply layout_error in El. subst e. reflexivity.
Qed.

(** X20.  A value for [V] that is no integer raises [TypeError]. *)
Theorem pack_into_varint_not_integer (rest : list ascii) (buff : list byte)
    (offset : Z) (v : value) (args : list value) :
  (forall z, int_val v <> Ok z) ->
  pack_into p ("V"%char :: rest) buff offset (v :: args) = Err TypeError.
Proof.
  intros Hv. unfold pack_into. cbn [char_in existsb].
  change (Ascii.eqb "V" "V") with true. cbn [orb].
  unfold parts. cbn [re_split_V].
  change (Ascii.eqb "V" "V") with true. cbv iota.
  cbn [filter nonempty pack_parts].
  change (str_eqb ["V"%char] (str "V")) with true.
  cbn [negb pop0 bind].
  destruct (int_val v) as [z|e] eqn:E; [exfalso; exact (Hv z eq_refl)|].
  apply int_val_error in E. subst e. reflexivity.
Qed.

End EncodeExtras.

Lemma pack_into_varint_never_returns_witness :
  char_in "V" (str "!iV") = true /\
  pack_into Struct.x86_64 (str "!iV") (zero_buffer 8) 0 [VInt 1; VInt 5]
  = Err StructError /\
  exists e,
    pack_into Struct.x86_64 (str "!iV") (zero_buffer 8) 0 [VInt 1; VInt 5]
    = Err e /\ e <> OutOfFuel.
Proof.
  assert (H : char_in "V" (str "!iV") = true) by reflexivity.
  split; [exact H|]. split; [reflexivity|].
  exact (pack_into_varint_never_returns Struct.x86_64 (str "!iV")
           (zero_buffer 8) 0 [VInt 1; VInt 5] H).
Defined.

Lemma pack_into_repeat_count_witness :
  0 <= 2 /\ 2 <> 1 /\
  pack_into Struct.x86_64 (decimal 2 ++ str "iV") (zero_buffer 12) 0
            (VInt 1 :: [VInt 2; VInt 3]) = Err StructError.
Proof.
  assert (H1 : 0 <= 2) by lia. assert (H2 : 2 <> 1) by lia.
  split; [exact H1|]. split; [exact H2|].
  exact (pack_into_repeat_count Struct.x86_64 2 (zero_buffer 12) 0 (VInt 1)
           [VInt 2; VInt 3] H1 H2).
Defined.

Lemma pack_into_varint_not_integer_witness :
  (forall z, int_val VNone <> Ok z) /\
  pack_into Struct.x86_64 ("V"%char :: str "i") (zero_buffer 8) 0
            (VNone :: [VInt 1]) = Err TypeError.
Proof.
  assert (H : forall z, int_val VNone <> Ok z) by (intros z; discriminate).
  split; [exact H|].
  exact (pack_into_varint_not_integer Struct.x86_64 (str "i") (zero_buffer 8)
           0 VNone [VInt 1] H).
Defined.

(** ** Decoding a format piece by piece *)

Section Compose.

Variable p : Struct.platform.
Variable arr : list ascii -> list byte -> Z -> Z -> Py.result (list value * Z).
Variable buff : list byte.

(** The [count] the walker is called with is not looked at. *)
Lemma walk_count (fmt : list ascii) :
  forall items array_fmt offset count count',
  walk p arr buff fmt items array_fmt offset count =
  walk p arr buff fmt items array_fmt offset count'.
Proof.
  induction fmt as [|ch fmt IH]; intros items array_fmt offset count count';
    cbn [walk]; [reflexivity|].
  destruct array_fmt as [afmt|].
  - destruct (Ascii.eqb ch "]" && _); [reflexivity|]. apply IH.
  - destruct (Ascii.eqb ch "["); [apply IH|].
    destruct (Ascii.eqb ch "V").
    { destruct (unpack_varint_from buff offset) as [[n u]|]; [|reflexivity].
      cbn [bind]. apply IH. }
    destruct (char_in ch (str "SY")).
    { destruct (Struct.unpack_from p _ buff offset); [|reflexivity].
      cbn [bind]. destruct (index a 0); [|reflexivity].
      cbn [bind]. destruct (int_val a0); [|reflexivity].
      cbn [bind]. destruct (Struct.calcsize p _); [|reflexivity].
      cbn [bind]. destruct (a1 =? -1); [apply IH|].
      destruct (Struct.unpack_from p _ buff (offset + a2)); [|reflexivity].
      cbn [bind]. destruct (Struct.calcsize p _); [|reflexivity].
      cbn [bind]. apply IH. }
    destruct (Struct.unpack_from p _ buff offset); [|reflexivity].
    cbn [bind]. destruct (Struct.calcsize p _); [|reflexivity].
    cbn [bind]. apply IH.
Qed.

(** The items found so far are carried along untouched. *)
Lemma walk_items (fmt : list ascii) :
  forall items array_fmt offset count,
  walk p arr buff fmt items array_fmt offset count =
  ('(r, e) <- walk p arr buff fmt [] array_fmt offset count ;;
   Ok (items ++ r, e)).
Proof.
  induction fmt as [|ch fmt IH]; intros items array_fmt offset count;
    cbn [walk].
  - cbn [bind]. rewrite app_nil_r. reflexivity.
  - assert (Hnext : forall x st o c,
      walk p arr buff fmt (items ++ x) st o c =
      ('(r, e) <- walk p arr buff fmt ([] ++ x) st o c ;; Ok (items ++ r, e))).
    { intros x st o c. rewrite (IH (items ++ x)), (IH ([] ++ x)).
      destruct (walk p arr buff fmt [] st o c) as [[r e]|]; cbn [bind];
        [|reflexivity].
      rewrite <- app_assoc. reflexivity. }
    destruct array_fmt as [afmt|].
    + destruct (Ascii.eqb ch "]" && _); [|apply IH].
      destruct (Struct.unpack_from p (str "!i") buff offset); [|reflexivity].
      cbn [bind]. destruct (index a 0); [|reflexivity].
      cbn [bind]. destruct (int_val a0); [|reflexivity].
      cbn [bind].
      destruct (arr afmt buff (offset + 4) a1) as [[ai o1]|]; [|reflexivity].
      cbn [bind]. apply Hnext.
    + destruct (Ascii.eqb ch "["); [apply IH|].
      destruct (Ascii.eqb ch "V").
      { destruct (unpack_varint_from buff offset) as [[n u]|]; [|reflexivity].
        cbn [bind]. apply Hnext. }
      destruct (char_in ch (str "SY")).
      { destruct (Struct.unpack_from p _ buff offset); [|reflexivity].
        cbn [bind]. destruct (index a 0); [|reflexivity].
        cbn [bind]. destruct (int_val a0); [|reflexivity].
        cbn [bind]. destruct (Struct.calcsize p _); [|reflexivity].
        cbn [bind]. destruct (a1 =? -1); [apply Hnext|].
        destruct (Struct.unpack_from p _ buff (offset + a2)); [|reflexivity].
        cbn [bind]. destruct (Struct.calcsize p _); [|reflexivity].
        cbn [bind]. apply Hnext. }
      destruct (Struct.unpack_from p _ buff offset); [|reflexivity].
      cbn [bind]. destruct (Struct.calcsize p _); [|reflexivity].
      cbn [bind]. apply Hnext.
Qed.

(** Walking two pieces, the first of which closes the [d] arrays that
    are open where it starts and those it opens itself. *)
Lemma walk_app (f1 f2 : list ascii) :
  forall items array_fmt offset count d,
  match array_fmt with
  | None => d = 0%nat
  | Some acc => Py.count acc "[" = (Py.count acc "]" + (d - 1))%nat
                /\ (1 <= d)%nat
  end ->
  well_nested f1 d = true ->
  walk p arr buff (f1 ++ f2) items array_fmt offset count =
  ('(r, e) <- walk p arr buff f1 items array_fmt offset count ;;
   walk p arr buff f2 r None e count).
Proof.
  induction f1 as [|ch f1 IH]; intros items array_fmt offset count d Hst Hw;
    cbn [well_nested] in Hw; cbn [app walk].
  - apply Nat.eqb_eq in Hw. subst d.
    destruct array_fmt as [acc|]; [lia|]. reflexivity.
  - destruct array_fmt as [acc|].
    + destruct Hst as (Hc & Hd).
      destruct (Ascii.eqb ch "[") eqn:E1.
      { apply Ascii.eqb_eq in E1. subst ch.
        change (Ascii.eqb "[" "]") with false. cbn [andb].
        apply (IH _ _ _ _ (S d)); [|assumption].
        rewrite !count_app. cbn. lia. }
      destruct (Ascii.eqb ch "]") eqn:E2.
      { apply Ascii.eqb_eq in E2. subst ch.
        destruct d as [|d]; [discriminate|].
        destruct (Nat.eqb (Py.count acc "[") (Py.count acc "]")) eqn:E3;
          cbn [andb].
        - apply Nat.eqb_eq in E3. assert (d = 0%nat) by lia. subst d.
          destruct (Struct.unpack_from p (str "!i") buff offset);
            [|reflexivity].
          cbn [bind]. destruct (index a 0); [|reflexivity].
          cbn [bind]. destruct (int_val a0); [|reflexivity].
          cbn [bind].
          destruct (arr acc buff (offset + 4) a1) as [[ai o1]|];
            [|reflexivity].
          cbn [bind]. rewrite (IH _ None _ _ 0%nat eq_refl Hw).
          destruct (walk p arr buff f1 (items ++ [VList ai]) None o1 a1)
            as [[r e]|]; cbn [bind]; [|reflexivity].
          apply walk_count.
        - apply Nat.eqb_neq in E3.
          apply (IH _ _ _ _ d); [|assumption].
          rewrite !count_app. cbn. lia. }
      cbn [andb]. apply (IH _ _ _ _ d); [|assumption].
      rewrite !count_app. unfold Py.count at 2 4. cbn [filter].
      rewrite (Ascii.eqb_sym "[" ch), (Ascii.eqb_sym "]" ch), E1, E2.
      cbn. lia.
    + subst d.
      destruct (Ascii.eqb ch "[") eqn:E1.
      { apply (IH _ _ _ _ 1%nat); [|assumption]. cbn. lia. }
      destruct (Ascii.eqb ch "]") eqn:E2; [discriminate|].
      destruct (Ascii.eqb ch "V").
      { destruct (unpack_varint_from buff offset) as [[n u]|]; [|reflexivity].
        cbn [bind]. apply (IH _ None _ _ 0%nat eq_refl Hw). }
      destruct (char_in ch (str "SY")).
      { destruct (Struct.unpack_from p _ buff offset); [|reflexivity].
        cbn [bind]. destruct (index a 0); [|reflexivity].
        cbn [bind]. destruct (int_val a0); [|reflexivity].
        cbn [bind]. destruct (Struct.calcsize p _); [|reflexivity].
        cbn [bind].
        destruct (a1 =? -1); [apply (IH _ None _ _ 0%nat eq_refl Hw)|].
        destruct (Struct.unpack_from p _ buff (offset + a2)); [|reflexivity].
        cbn [bind]. destruct (Struct.calcsize p _); [|reflexivity].
        cbn [bind]. apply (IH _ None _ _ 0%nat eq_refl Hw). }
      destruct (Struct.unpack_from p _ buff offset); [|reflexivity].
      cbn [bind]. destruct (Struct.calcsize p _); [|reflexivity].
      cbn [bind]. apply (IH _ None _ _ 0%nat eq_refl Hw).
Qed.

End Compose.

(** X21.  A format made of two pieces, the first closing every array
    it opens, is decoded piece by piece: the second from where the
    first one ends, and the items of both in order. *)
Theorem unpack_concatenation (p : Struct.platform) (f1 f2 : list ascii)
    (buff : list byte) (offset count : Z) :
  well_nested f1 0 = true ->
  _unpack p (f1 ++ f2) buff offset count =
  ('(items1, o1) <- _unpack p f1 buff offset count ;;
   '(items2, o2) <- _unpack p f2 buff o1 count ;;
   Ok (items1 ++ items2, o2)).
Proof.
  intros Hw. rewrite !unpack_walk.
  rewrite (walk_app p _ buff f1 f2 [] None offset count 0%nat eq_refl Hw).
  destruct (walk p (_unpack_array p) buff f1 [] None offset count)
    as [[r e]|]; cbn [bind]; [|reflexivity].
  rewrite unpack_walk. apply walk_items.
Qed.

Lemma unpack_concatenation_witness :
  well_nested (str "[i]") 0 = true /\
  _unpack Struct.x86_64 (str "[i]" ++ str "V")
    (bytes_of_list [0;0;0;1; 0;0;0;7; 172;2]) 0 1
  = Ok ([VList [VInt 7]; VInt 300], 10).
Proof.
  assert (H : well_nested (str "[i]") 0 = true) by reflexivity.
  split; [exact H|].
  rewrite (unpack_concatenation Struct.x86_64 (str "[i]") (str "V")
             (bytes_of_list [0;0;0;1; 0;0;0;7; 172;2]) 0 1 H).
  reflexivity.
Defined.

(** ** A fixed-width field written and read back *)

Lemma byte_val_byte_of_mod (z : Z) : Struct.byte_val (byte_of z) = z mod 256.
Proof.
  assert (H : byte_of z = byte_of (z mod 256)).
  { unfold byte_of. rewrite Z.mod_mod by lia. reflexivity. }
  rewrite H. apply byte_val_byte_of. apply Z.mod_pos_bound. lia.
Qed.

Lemma be_uint_snoc (bs : list byte) (b : byte) :
  Struct.be_uint (bs ++ [b]) = Struct.be_uint bs * 256 + Struct.byte_val b.
Proof. unfold Struct.be_uint. rewrite fold_left_app. reflexivity. Qed.

Lemma be_uint_be_bytes (n : nat) :
  forall z, 0 <= z < 256 ^ Z.of_nat n ->
  Struct.be_uint (Struct.be_bytes n z) = z.
Proof.
  induction n as [|n IH]; intros z Hz.
  - simpl in Hz. cbn. lia.
  - cbn [Struct.be_bytes]. rewrite be_uint_snoc, byte_val_byte_of_mod.
    rewrite IH.
    + pose proof (Z.div_mod z 256 ltac:(lia)). lia.
    + replace (Z.of_nat (S n)) with (Z.succ (Z.of_nat n)) in Hz by lia.
      rewrite Z.pow_succ_r in Hz by lia.
      split; [apply Z.div_pos; lia|].
      apply Z.div_lt_upper_bound; lia.
Qed.

Lemma length_be_bytes (n : nat) :
  forall z, List.length (Struct.be_bytes n z) = n.
Proof.
  induction n as [|n IH]; intros z; cbn [Struct.be_bytes]; [reflexivity|].
  rewrite length_app, IH. cbn. lia.
Qed.

Lemma bytes_at_middle (a b c : list byte) (off n : Z) :
  off = len a -> n = len b ->
  Struct.bytes_at (a ++ b ++ c) off n = b.
Proof.
  intros -> ->. unfold Struct.bytes_at, len. rewrite !Nat2Z.id.
  rewrite skipn_app, skipn_all, Nat.sub_diag. cbn [app skipn].
  rewrite firstn_app, firstn_all, Nat.sub_diag. cbn [firstn].
  apply app_nil_r.
Qed.

(** Bytes written inside the buffer. *)
Lemma write_at_inside (buff : list byte) (pos : Z) (bs : list byte) :
  0 <= pos -> pos + len bs <= len buff ->
  Struct.write_at buff pos bs
  = firstn (Z.to_nat pos) buff ++ bs
      ++ skipn (Z.to_nat (pos + len bs)) buff.
Proof.
  intros Hp Hl. unfold Struct.write_at. cbv zeta.
  rewrite (firstn_all2 (n := Z.to_nat (len buff - pos)) bs);
    [reflexivity|].
  unfold len in *. lia.
Qed.

Lemma write_at_length (buff : list byte) (pos : Z) (bs : list byte) :
  0 <= pos -> pos + len bs <= len buff ->
  List.length (Struct.write_at buff pos bs) = List.length buff.
Proof.
  intros Hp Hl. rewrite write_at_inside by assumption.
  rewrite !length_app, length_firstn, length_skipn.
  unfold len in *. lia.
Qed.

Lemma bytes_at_write_at (buff : list byte) (pos : Z) (bs : list byte) :
  0 <= pos -> pos + len bs <= len buff ->
  Struct.bytes_at (Struct.write_at buff pos bs) pos (len bs) = bs.
Proof.
  intros Hp Hl. rewrite write_at_inside by assumption.
  apply bytes_at_middle; [|reflexivity].
  unfold len in *. rewrite length_firstn. lia.
Qed.

Lemma to_signed_mod (a : Z) :
  - 2 ^ 31 <= a < 2 ^ 31 -> Struct.to_signed 32 (a mod 2 ^ 32) = a.
Proof.
  intros Ha. unfold Struct.to_signed. change (32 - 1) with 31.
  destruct (Z_lt_le_dec a 0) as [Hneg|Hpos].
  - assert (H : a mod 2 ^ 32 = a + 2 ^ 32).
    { symmetry. apply Z.mod_unique with (q := -1); lia. }
    rewrite H. rewrite (proj2 (Z.ltb_ge _ _)) by lia. lia.
  - rewrite Z.mod_small by lia.
    rewrite (proj2 (Z.ltb_lt _ _)) by lia. reflexivity.
Qed.

Section FixedWidth.

Variable p : Struct.platform.

Lemma pack_int32 (buff : list byte) (offset a : Z) :
  0 <= offset -> offset + 4 <= len buff ->
  - 2 ^ 31 <= a < 2 ^ 31 ->
  Struct.pack_into p (str "!i") buff offset [VInt a]
  = Ok (Struct.write_at (Struct.write_at buff offset (Struct.zeros 4))
          (offset + 0) (Struct.be_bytes 4 (a mod 2 ^ 32))).
Proof.
  intros Ho Hl Ha. unfold Struct.pack_into.
  replace (Struct.compile p (str "!i"))
    with (@Ok (Struct.mode * list (Z * ascii) * list (Z * Z * ascii) * Z)
              (Struct.Standard false, [(1, "i"%char)],
               [(0, 1, "i"%char)], 4))
    by (destruct p as [le l8 [] a8]; reflexivity).
  cbn [bind].
  change (negb (len [VInt a] =? Struct.nargs [(1, "i"%char)])) with false.
  cbv iota. rewrite resolve_offset_nonneg by assumption. cbn [bind].
  cbn [Struct.pack_items Struct.pack_item].
  change (Z.to_nat 1) with 1%nat. cbn [pop_many pop0 bind].
  change (Struct.item_size p (Struct.Standard false) "i") with 4.
  change (Struct.mode_little p (Struct.Standard false)) with false.
  cbn [Struct.pack_scalars Struct.pack_scalar Struct.as_int bind].
  change (Struct.int_range "i" 4) with (- 2 ^ 31, 2 ^ 31).
  cbv iota beta.
  rewrite (proj2 (Z.leb_le _ _) (proj1 Ha)),
          (proj2 (Z.ltb_lt _ _) (proj2 Ha)).
  cbn [andb bind]. rewrite app_nil_r. reflexivity.
Qed.

(** X22.  On the path without [V] a signed integer of 32 bits written
    by [pack_into] with ["!i"] is what [unpack_from] reads back with
    ["!i"] from the same offset; the buffer keeps its length, and
    [pack_into] returns [None]. *)
Theorem pack_into_unpack_from_int32 (buff : list byte) (offset v : Z) :
  - 2 ^ 31 <= v < 2 ^ 31 -> 0 <= offset -> offset + 4 <= len buff ->
  exists buff',
    pack_into p (str "!i") buff offset [VInt v] = Ok (buff', VNone) /\
    List.length buff' = List.length buff /\
    unpack_from p (str "!i") buff' offset = Ok (VTuple [VInt v]).
Proof.
  intros Hv Ho Hl.
  set (bs := Struct.be_bytes 4 (v mod 2 ^ 32)).
  set (b0 := Struct.write_at buff offset (Struct.zeros 4)).
  assert (Hbs : len bs = 4) by (unfold len, bs; rewrite length_be_bytes; reflexivity).
  assert (Hb0 : List.length b0 = List.length buff)
    by (apply write_at_length; [assumption | exact Hl]).
  assert (Hl0 : offset + 0 + len bs <= len b0)
    by (unfold len in *; lia).
  exists (Struct.write_at b0 (offset + 0) bs).
  split; [|split].
  - unfold pack_into. change (char_in "V" (str "!i")) with false. cbv iota.
    rewrite (pack_int32 buff offset v Ho Hl Hv). reflexivity.
  - rewrite write_at_length by (assumption || lia). exact Hb0.
  - unfold unpack_from.
    change (normalize (str "!i")) with (@Ok (list ascii) (str "i")).
    cbn [bind]. rewrite unpack_walk.
    change (str "i") with ["i"%char].
    rewrite walk_code by reflexivity.
    assert (Hlen : offset + 4 <= len (Struct.write_at b0 (offset + 0) bs)).
    { unfold len. rewrite write_at_length by (assumption || lia).
      unfold len in Hl. lia. }
    change ["!"%char; "i"%char] with (str "!i").
    rewrite (unpack_int32 p _ offset Ho Hlen). cbn [bind].
    replace (Struct.calcsize p ["i"%char]) with (@Ok Z 4)
      by (destruct p as [le l8 [] a8]; reflexivity).
    cbn [bind walk index nth_error app].
    change (Ascii.eqb "i" "[") with false. cbn [andb].
    pose proof (bytes_at_write_at b0 (offset + 0) bs ltac:(lia) Hl0) as Hr.
    rewrite Hbs, Z.add_0_r in Hr. rewrite Z.add_0_r. rewrite Hr.
    unfold bs. rewrite be_uint_be_bytes.
    + rewrite to_signed_mod by assumption. reflexivity.
    + change (256 ^ Z.of_nat 4) with (2 ^ 32).
      apply Z.mod_pos_bound. lia.
Qed.

End FixedWidth.

Lemma pack_into_unpack_from_int32_witness :
  - 2 ^ 31 <= -2 < 2 ^ 31 /\ 0 <= 1 /\ 1 + 4 <= len (zero_buffer 6) /\
  pack_into Struct.x86_64 (str "!i") (zero_buffer 6) 1 [VInt (-2)]
  = Ok (bytes_of_list [0; 255; 255; 255; 254; 0], VNone) /\
  exists buff',
    pack_into Struct.x86_64 (str "!i") (zero_buffer 6) 1 [VInt (-2)]
    = Ok (buff', VNone) /\
    List.length buff' = List.length (zero_buffer 6) /\
    unpack_from Struct.x86_64 (str "!i") buff' 1 = Ok (VTuple [VInt (-2)]).
Proof.
  assert (H1 : - 2 ^ 31 <= -2 < 2 ^ 31) by lia.
  assert (H2 : 0 <= 1) by lia.
  assert (H3 : 1 + 4 <= len (zero_buffer 6)) by (vm_compute; discriminate).
  split; [exact H1|]. split; [exact H2|]. split; [exact H3|].
  split; [reflexivity|].
  exact (pack_into_unpack_from_int32 Struct.x86_64 (zero_buffer 6) 1 (-2)
           H1 H2 H3).
Defined.
